(** * Arcade machine catalog: a shallow embedding of [arcade_catalog.py]

    The module builds arcade machines from five predefined templates, scales
    three of their fields with a material decorator, lets callers attach and
    detach videogames, and answers filter queries over a catalog.

    Modelling choices.
    - Python [float] is IEEE 754 binary64 with round-to-nearest-even, which is
      what Rocq's primitive [float] computes with.  Decimal literals of the
      source ([1.1], [0.95], ...) are read to the nearest binary64 value by
      both languages.  The [int] literals the templates pass where a [float]
      is annotated (200, 1000, 5000, ...) are exactly representable, and
      Python converts them exactly on the first mixed operation, so they are
      written as floats here.
    - [Machine] and [Videogame] never inspect the numbers they hold: the
      methods only apply [+], [-] and [<=], which Python resolves on the
      run-time type.  The records are therefore parametric in the number type,
      with the operators supplied by the class [Number]; the factory fixes the
      type to [float].
    - Python objects have identity.  [Videogame] defines no [__eq__], so [in]
      and [list.remove] compare references.  Games and machines are references
      into stores; a store is a total function because a Python reference
      always denotes a live object.  No code of the module assigns to a field
      of a game after [__init__], so the game store is constant.
    - [str] is modelled by byte strings, a text standing for its UTF-8
      encoding, so that [==] on [str] is equality.  [str.lower] changes
      letters of every script.  The searches, which lower-case both sides of
      a comparison, take it as the parameter [str_lower] and are defined for
      whatever function it is.  The factory and the menu only compare a
      lower-cased text with a literal made of ASCII letters other than k
      (a material key, or y); the one character outside ASCII whose
      lower-case form is ASCII is the Kelvin sign, which becomes k, so such a
      comparison holds exactly when it holds after folding A-Z, and there
      the fold [lower] is used. *)

From Stdlib Require Import ZArith Floats Ascii String.
From stdpp Require Import base decidable option list strings pretty gmap.

Set Warnings "-inexact-float".

(** ** Numbers *)

Class Number (R : Type) := {
  num_zero : R;                 (* the [0] a Python [sum] starts from *)
  num_add : R → R → R;          (* [a + b] *)
  num_sub : R → R → R;          (* [a - b] *)
  num_le : R → R → bool         (* [a <= b] *)
}.

#[export] Instance float_Number : Number float := {
  num_zero := 0%float;
  num_add := PrimFloat.add;
  num_sub := PrimFloat.sub;
  num_le := PrimFloat.leb
}.

(** Python [int]: unbounded, exact. *)
#[export] Instance int_Number : Number Z := {
  num_zero := 0%Z;
  num_add := Z.add;
  num_sub := Z.sub;
  num_le := Z.leb
}.

(** Arithmetic without rounding: what [int] offers and [float] does not. *)
Class ExactNumber (R : Type) `{Number R} : Prop := {
  num_add_comm : ∀ a b : R, num_add a b = num_add b a;
  num_add_assoc : ∀ a b c : R, num_add a (num_add b c) = num_add (num_add a b) c;
  num_add_zero_r : ∀ a : R, num_add a num_zero = a;
  num_sub_add : ∀ a b : R, num_sub (num_add a b) b = a
}.

(** ** Strings *)

Definition lower_ascii (c : ascii) : ascii :=
  let n := Ascii.N_of_ascii c in
  if ((65 <=? n) && (n <=? 90))%N then Ascii.ascii_of_N (n + 32) else c.

(** [str.lower()] on the letters A-Z, for comparisons with an ASCII literal
    that has no k. *)
Fixpoint lower (s : string) : string :=
  match s with
  | EmptyString => EmptyString
  | String c s' => String (lower_ascii c) (lower s')
  end.

(** ** Outcomes of a call *)

Inductive exception := ValueError.

Inductive outcome (A : Type) :=
| Returns (a : A)
| Raises (e : exception).
Arguments Returns {A} a.
Arguments Raises {A} e.

Definition bind {A B} (o : outcome A) (k : A → outcome B) : outcome B :=
  match o with
  | Returns a => k a
  | Raises e => Raises e
  end.

(** ** Data model *)

(** Object references. *)
Definition ref := nat.

Record Dimensions := {
  d_length : float;
  d_width : float;
  d_height : float
}.

Record Videogame (R : Type) := {
  name : string;
  storytelling_creator : string;
  graphics_creator : string;
  category : string;
  price : R;
  year : Z;
  is_high_definition : bool
}.
Arguments name {R} _.
Arguments storytelling_creator {R} _.
Arguments graphics_creator {R} _.
Arguments category {R} _.
Arguments price {R} _.
Arguments year {R} _.
Arguments is_high_definition {R} _.

(** [Videogame.__init__]: the price is stored, then scaled in place when the
    game is high definition. *)
Definition Videogame_init (name storytelling_creator graphics_creator category : string)
    (price : float) (year : Z) (is_high_definition : bool) : Videogame float :=
  {| name := name;
     storytelling_creator := storytelling_creator;
     graphics_creator := graphics_creator;
     category := category;
     price := if is_high_definition then (price * 1.1)%float else price;
     year := year;
     is_high_definition := is_high_definition |}.

(** Attributes the templates attach to the instance after construction. *)
Inductive Extras :=
| NoExtras
| DanceExtras (difficulties : list string) (arrow_cardinalities controls_price : Z)
| ShootingExtras (number_of_guns : Z) (target_type : string)
| RacingExtras (steering_type : string) (number_of_seats : Z)
| VirtualRealityExtras (glasses_type glasses_resolution : string) (glasses_price : Z).

Record Machine (R : Type) := {
  material : string;
  dimensions : Dimensions;
  weight : R;
  power_consumption : R;
  memory : Z;
  processors : Z;
  base_price : R;
  color : string;
  videogames : list ref;
  extras : Extras
}.
Arguments material {R} _.
Arguments dimensions {R} _.
Arguments weight {R} _.
Arguments power_consumption {R} _.
Arguments memory {R} _.
Arguments processors {R} _.
Arguments base_price {R} _.
Arguments color {R} _.
Arguments videogames {R} _.
Arguments extras {R} _.

(** The game store: the fields of the object a reference denotes. *)
Definition games (R : Type) := ref → Videogame R.

(** The machine store. *)
Definition machine_store (R : Type) := ref → Machine R.

(** [Machine.__init__] *)
Definition Machine_init {R} (material : string) (dimensions : Dimensions)
    (weight power_consumption : R) (memory processors : Z) (base_price : R)
    (color : string) : Machine R :=
  {| material := material; dimensions := dimensions; weight := weight;
     power_consumption := power_consumption; memory := memory;
     processors := processors; base_price := base_price; color := color;
     videogames := []; extras := NoExtras |}.

(** Attribute assignments [self.f = v]. *)
Definition set_weight {R} (self : Machine R) (v : R) : Machine R :=
  {| material := material self; dimensions := dimensions self; weight := v;
     power_consumption := power_consumption self; memory := memory self;
     processors := processors self; base_price := base_price self;
     color := color self; videogames := videogames self; extras := extras self |}.

Definition set_power_consumption {R} (self : Machine R) (v : R) : Machine R :=
  {| material := material self; dimensions := dimensions self; weight := weight self;
     power_consumption := v; memory := memory self;
     processors := processors self; base_price := base_price self;
     color := color self; videogames := videogames self; extras := extras self |}.

Definition set_base_price {R} (self : Machine R) (v : R) : Machine R :=
  {| material := material self; dimensions := dimensions self; weight := weight self;
     power_consumption := power_consumption self; memory := memory self;
     processors := processors self; base_price := v;
     color := color self; videogames := videogames self; extras := extras self |}.

Definition set_videogames {R} (self : Machine R) (v : list ref) : Machine R :=
  {| material := material self; dimensions := dimensions self; weight := weight self;
     power_consumption := power_consumption self; memory := memory self;
     processors := processors self; base_price := base_price self;
     color := color self; videogames := v; extras := extras self |}.

Definition set_extras {R} (self : Machine R) (v : Extras) : Machine R :=
  {| material := material self; dimensions := dimensions self; weight := weight self;
     power_consumption := power_consumption self; memory := memory self;
     processors := processors self; base_price := base_price self;
     color := color self; videogames := videogames self; extras := v |}.

(** [list.remove(x)]: drops the first item equal to [x]; [ValueError] when
    there is none. *)
Fixpoint list_remove (x : ref) (l : list ref) : outcome (list ref) :=
  match l with
  | [] => Raises ValueError
  | y :: l' =>
      if decide (y = x) then Returns l'
      else bind (list_remove x l') (λ r, Returns (y :: r))
  end.

(** [x in l] *)
Definition list_contains (x : ref) (l : list ref) : bool := bool_decide (x ∈ l).

(** A caller's script of [add_videogame]/[remove_videogame] calls. *)
Inductive call := Add (game : ref) | Remove (game : ref).

Section MachineMethods.
Context {R : Type} `{Number R}.
Variable G : games R.

(** [Machine.add_videogame] *)
Definition add_videogame (self : Machine R) (game : ref) : Machine R :=
  let self := set_videogames self (videogames self ++ [game]) in
  set_base_price self (num_add (base_price self) (price (G game))).

(** [Machine.remove_videogame] *)
Definition remove_videogame (self : Machine R) (game : ref) : outcome (Machine R) :=
  if list_contains game (videogames self) then
    bind (list_remove game (videogames self)) (λ l,
      let self := set_videogames self l in
      Returns (set_base_price self (num_sub (base_price self) (price (G game)))))
  else Returns self.

(** [Machine.calculate_total_price] *)
Definition calculate_total_price (self : Machine R) : R := base_price self.

Definition perform (self : Machine R) (c : call) : outcome (Machine R) :=
  match c with
  | Add game => Returns (add_videogame self game)
  | Remove game => remove_videogame self game
  end.

Fixpoint perform_all (self : Machine R) (cs : list call) : outcome (Machine R) :=
  match cs with
  | [] => Returns self
  | c :: cs' => bind (perform self c) (λ self', perform_all self' cs')
  end.

(** [sum(g.price for g in l)] *)
Definition sum_prices (l : list ref) : R :=
  fold_left (λ acc g, num_add acc (price (G g))) l num_zero.

(** The machine's own price [own] and its games account for [base_price]. *)
Definition accounted (own : R) (m : Machine R) : Prop :=
  base_price m = num_add own (sum_prices (videogames m)).

(** The specification's reading of [calculate_total_price]: after a script of
    calls on machine [m0], it is the [base_price] field, and that is [m0]'s
    base price plus the sum of the prices of the games then attached. *)
Definition total_price_is_sum (m0 : Machine R) (cs : list call) : Prop :=
  ∃ m', perform_all m0 cs = Returns m' ∧
    calculate_total_price m' = base_price m' ∧
    calculate_total_price m' = num_add (base_price m0) (sum_prices (videogames m')).
End MachineMethods.

(** The fields neither [add_videogame] nor [remove_videogame] is meant to touch. *)
Definition same_frame {R} (m m' : Machine R) : Prop :=
  material m' = material m ∧ dimensions m' = dimensions m ∧
  weight m' = weight m ∧ power_consumption m' = power_consumption m ∧
  memory m' = memory m ∧ processors m' = processors m ∧
  color m' = color m ∧ extras m' = extras m.

(** ** Predefined machines *)

Inductive PredefinedMachine :=
| DanceRevolutionMachine
| ClassicalArcadeMachine
| ShootingMachine
| RacingMachine
| VirtualRealityMachine.

Module Template.
(** [PredefinedMachine.create_machine], one body per subclass. *)
Definition create_machine (self : PredefinedMachine) (material color : string)
    : Machine float :=
  match self with
  | DanceRevolutionMachine =>
      let machine :=
        Machine_init material
          {| d_length := 2.0; d_width := 1.5; d_height := 2.2 |}
          200%float 1000%float 8 2 5000%float color in
      set_extras machine (DanceExtras ["Easy"; "Medium"; "Hard"]%string 4 500)
  | ClassicalArcadeMachine =>
      Machine_init material
        {| d_length := 0.8; d_width := 0.6; d_height := 1.8 |}
        100%float 500%float 4 1 3000%float color
  | ShootingMachine =>
      let machine :=
        Machine_init material
          {| d_length := 1.5; d_width := 1.2; d_height := 2.0 |}
          150%float 800%float 8 2 4000%float color in
      set_extras machine (ShootingExtras 2 "Moving")
  | RacingMachine =>
      let machine :=
        Machine_init material
          {| d_length := 2.0; d_width := 1.8; d_height := 1.5 |}
          180%float 1200%float 16 4 6000%float color in
      set_extras machine (RacingExtras "Force Feedback" 1)
  | VirtualRealityMachine =>
      let machine :=
        Machine_init material
          {| d_length := 2.5; d_width := 2.5; d_height := 2.2 |}
          220%float 1500%float 32 8 8000%float color in
      set_extras machine (VirtualRealityExtras "OLED" "4K" 1000)
  end.
End Template.

(** ** Material decorators *)

Inductive MaterialDecorator :=
| WoodMaterialDecorator
| AluminiumMaterialDecorator
| CarbonFiberMaterialDecorator.

(** Each method updates the wrapped machine in place. *)
Definition adjust_weight (self : MaterialDecorator) (machine : Machine float)
    : Machine float :=
  match self with
  | WoodMaterialDecorator => set_weight machine (weight machine * 1.1)%float
  | AluminiumMaterialDecorator => set_weight machine (weight machine * 0.95)%float
  | CarbonFiberMaterialDecorator => set_weight machine (weight machine * 0.85)%float
  end.

Definition adjust_price (self : MaterialDecorator) (machine : Machine float)
    : Machine float :=
  match self with
  | WoodMaterialDecorator => set_base_price machine (base_price machine * 0.95)%float
  | AluminiumMaterialDecorator => set_base_price machine (base_price machine * 1.1)%float
  | CarbonFiberMaterialDecorator => set_base_price machine (base_price machine * 1.2)%float
  end.

Definition adjust_power_consumption (self : MaterialDecorator) (machine : Machine float)
    : Machine float :=
  match self with
  | WoodMaterialDecorator =>
      set_power_consumption machine (power_consumption machine * 1.15)%float
  | AluminiumMaterialDecorator => machine
  | CarbonFiberMaterialDecorator =>
      set_power_consumption machine (power_consumption machine * 0.9)%float
  end.

(** ** Factory *)

Module MachineFactory.
Definition predefined_machines : gmap string PredefinedMachine :=
  <["DanceRevolution" := DanceRevolutionMachine]>
  (<["ClassicalArcade" := ClassicalArcadeMachine]>
  (<["Shooting" := ShootingMachine]>
  (<["Racing" := RacingMachine]>
  (<["VirtualReality" := VirtualRealityMachine]> ∅)))).

Definition material_decorators : gmap string MaterialDecorator :=
  <["wood" := WoodMaterialDecorator]>
  (<["aluminium" := AluminiumMaterialDecorator]>
  (<["carbon fiber" := CarbonFiberMaterialDecorator]> ∅)).

(** [MachineFactory.create_machine]; the result [None] is Python's [None]. *)
Definition create_machine (machine_type material color : string)
    : option (Machine float) :=
  match predefined_machines !! machine_type with
  | None => None
  | Some machine_creator =>
      let machine := Template.create_machine machine_creator material color in
      match material_decorators !! lower material with
      | Some decorator =>
          let machine := adjust_weight decorator machine in
          let machine := adjust_price decorator machine in
          let machine := adjust_power_consumption decorator machine in
          Some machine
      | None => Some machine
      end
  end.
End MachineFactory.

(** ** Catalog *)

Record CatalogManager := { machines : list ref }.

(** [CatalogManager.__init__] *)
Definition CatalogManager_init : CatalogManager := {| machines := [] |}.

(** [CatalogManager.register_machine] *)
Definition register_machine (self : CatalogManager) (machine : ref) : CatalogManager :=
  {| machines := machines self ++ [machine] |}.

Section Searches.
Context {R : Type} `{Number R}.
(** [str.lower] *)
Variable str_lower : string → string.
Variable G : games R.
Variable M : machine_store R.

(** [lo <= x <= hi], Python's chained comparison. *)
Definition between (lo x hi : R) : bool := num_le lo x && num_le x hi.

Definition search_by_videogame_count (self : CatalogManager) (count : Z) : list ref :=
  filter (λ m, Z.of_nat (length (videogames (M m))) = count) (machines self).

Definition search_by_material (self : CatalogManager) (wanted : string) : list ref :=
  filter (λ m, str_lower (material (M m)) = str_lower wanted) (machines self).

Definition search_by_videogame_name (self : CatalogManager) (wanted : string) : list ref :=
  filter (λ m, existsb (λ v, bool_decide (str_lower (name (G v)) = str_lower wanted))
                 (videogames (M m)) = true)
         (machines self).

Definition search_by_price_range (self : CatalogManager) (min_price max_price : R)
    : list ref :=
  filter (λ m, between min_price (calculate_total_price (M m)) max_price = true)
         (machines self).

Definition search_by_weight_range (self : CatalogManager) (min_weight max_weight : R)
    : list ref :=
  filter (λ m, between min_weight (weight (M m)) max_weight = true) (machines self).

Definition search_by_power_consumption_range (self : CatalogManager)
    (min_power max_power : R) : list ref :=
  filter (λ m, between min_power (power_consumption (M m)) max_power = true)
         (machines self).
End Searches.

(** ** Vocabulary of the statements *)

#[export] Instance int_ExactNumber : ExactNumber Z.
Proof. split; simpl; intros; lia. Qed.

(** The keys of [predefined_machines]. *)
Definition machine_types : list string :=
  ["DanceRevolution"; "ClassicalArcade"; "Shooting"; "Racing"; "VirtualReality"]%string.

(** The keys of [material_decorators]. *)
Definition known_materials : list string :=
  ["wood"; "aluminium"; "carbon fiber"]%string.

(** The three steps of a decorator, in the order the factory takes them. *)
Definition adjustments (self : MaterialDecorator) : list (Machine float → Machine float) :=
  [adjust_weight self; adjust_price self; adjust_power_consumption self].

(** Running a list of in-place updates from left to right. *)
Definition apply_in_order {A} (steps : list (A → A)) (a : A) : A :=
  fold_left (λ acc step, step acc) steps a.

(** What a comprehension [[m for m in l if P m]] returns: the entries of [l]
    that satisfy [P], each as often as it is listed, in the order of [l]. *)
Definition selection {A} (P : A → Prop) (l result : list A) : Prop :=
  result `sublist_of` l ∧
  Forall P result ∧
  (∀ l', l' `sublist_of` l → Forall P l' → l' `sublist_of` result).

(** ** Sample objects *)

(** Two game objects with equal fields (references 1 and 2) and a third. *)
Definition sample_games : games float := λ r,
  match r with
  | 3 => Videogame_init "Tetris" "P" "Q" "Puzzle" 20 1984 true
  | _ => Videogame_init "Pong" "A" "B" "Sports" 100.1 1972 false
  end.

(** What [create_machine("Shooting", "steel", "Blue")] returns. *)
Definition sample_machine : Machine float :=
  Template.create_machine ShootingMachine "steel" "Blue".

(** A store of three machines: an undecorated classical arcade (weight 100),
    the aluminium racing machine (weight 171) and a hand-built one of 250. *)
Definition sample_store : machine_store float := λ r,
  match r with
  | 0 => Template.create_machine ClassicalArcadeMachine "steel" "Black"
  | 1 => adjust_power_consumption AluminiumMaterialDecorator
           (adjust_price AluminiumMaterialDecorator
              (adjust_weight AluminiumMaterialDecorator
                 (Template.create_machine RacingMachine "Aluminium" "Red")))
  | _ => Machine_init "steel" {| d_length := 3; d_width := 2; d_height := 2 |}
           250%float 900%float 8 2 7000%float "Grey"
  end.

Definition sample_catalog : CatalogManager :=
  register_machine (register_machine (register_machine CatalogManager_init 0) 1) 2.

(** Integer-priced games and an undecorated machine with an integer price. *)
Definition int_games : games Z := λ r,
  {| name := "Pong"; storytelling_creator := "A"; graphics_creator := "B";
     category := "Sports"; price := (25 + Z.of_nat r)%Z; year := 1972;
     is_high_definition := false |}.

Definition int_machine : Machine Z :=
  Machine_init "steel" {| d_length := 0.8; d_width := 0.6; d_height := 1.8 |}
    100%Z 500%Z 4 1 3000%Z "Blue".

(** Non-membership in a short list of literals, decided by running the test. *)
Ltac literal_not_elem_of :=
  let Hin := fresh "Hin" in
  intros Hin;
  repeat (apply elem_of_cons in Hin as [Hin|Hin]; [discriminate Hin|]);
  by apply elem_of_nil in Hin.

(** ** Copies, stores and descriptions *)

(** How often a game is attached. *)
Definition copies (g : ref) (l : list ref) : nat := length (filter (λ x, x = g) l).

(** Assignment through a reference: the object [r] denotes becomes [m]; every
    holder of [r] sees the change, no other object does. *)
Definition store_set {R} (M : machine_store R) (r : ref) (m : Machine R) : machine_store R :=
  λ r', if decide (r' = r) then m else M r'.

(** [machine.add_videogame(game)] for the machine object that [r] denotes. *)
Definition add_videogame_at {R} `{Number R} (G : games R) (M : machine_store R)
    (r game : ref) : machine_store R :=
  store_set M r (add_videogame G (M r) game).

(** Games whose price is not a finite number. *)
Definition nan_games : games float := λ r,
  match r with
  | 0 => Videogame_init "Glitch" "A" "B" "Puzzle" PrimFloat.nan 2001 false
  | 1 => Videogame_init "Jackpot" "A" "B" "Casino" PrimFloat.infinity 2002 true
  | _ => Videogame_init "Pong" "A" "B" "Sports" 25 1972 false
  end.

(** The fields a decorator is not meant to touch. *)
Definition same_description {R} (m m' : Machine R) : Prop :=
  material m' = material m ∧ dimensions m' = dimensions m ∧
  memory m' = memory m ∧ processors m' = processors m ∧
  color m' = color m ∧ videogames m' = videogames m ∧ extras m' = extras m.

(** ** The command line interface ([arcademachingCLI.py])

    The functions of the menu read and write the terminal, allocate objects
    and raise exceptions, so they are written in a monad that threads the
    world (object stores, next free reference, the catalog of [main], the
    lines still to be read, what was written) and stops at the first
    exception.  [int()], [float()] and the [.2f] format are parameters: the
    menu only depends on whether the conversion succeeds.  [while True] is
    unrolled a given number of times; running out of rounds is a result of
    its own, distinct from returning and from raising. *)

(** What reaches the terminal: [print] writes a line, [input] writes its
    prompt without a line break. *)
Inductive event :=
| Printed (text : string)
| Prompted (text : string).

Inductive cli_exception :=
| CliValueError          (* [int()] or [float()] rejected the text *)
| EOFError               (* [input()] with nothing left to read *)
| IndexError             (* list index out of range *)
| SystemExit (code : Z). (* [sys.exit(code)] *)

Inductive result (A : Type) :=
| Done (a : A)
| Raised (e : cli_exception)
| OutOfFuel.
Arguments Done {A} a.
Arguments Raised {A} e.
Arguments OutOfFuel {A}.

(** The objects of a session, the one catalog that [main] creates, and the
    terminal.  References below [w_next] are taken. *)
Record World := {
  w_games : games float;
  w_machines : machine_store float;
  w_next : ref;
  w_catalog : CatalogManager;
  w_stdin : list string;
  w_stdout : list event
}.

Definition cli (A : Type) : Type := World → result A * World.

#[export] Instance cli_ret : MRet cli := λ A a w, (Done a, w).

#[export] Instance cli_bind : MBind cli := λ A B k c w,
  match c w with
  | (Done a, w') => k a w'
  | (Raised e, w') => (Raised e, w')
  | (OutOfFuel, w') => (OutOfFuel, w')
  end.

Definition raise {A} (e : cli_exception) : cli A := λ w, (Raised e, w).

Definition out_of_fuel {A} : cli A := λ w, (OutOfFuel, w).

(** Field updates of the world. *)
Definition set_games (w : World) (G : games float) : World :=
  {| w_games := G; w_machines := w_machines w; w_next := w_next w;
     w_catalog := w_catalog w; w_stdin := w_stdin w; w_stdout := w_stdout w |}.

Definition set_machines (w : World) (M : machine_store float) : World :=
  {| w_games := w_games w; w_machines := M; w_next := w_next w;
     w_catalog := w_catalog w; w_stdin := w_stdin w; w_stdout := w_stdout w |}.

Definition set_next (w : World) (n : ref) : World :=
  {| w_games := w_games w; w_machines := w_machines w; w_next := n;
     w_catalog := w_catalog w; w_stdin := w_stdin w; w_stdout := w_stdout w |}.

Definition set_catalog (w : World) (c : CatalogManager) : World :=
  {| w_games := w_games w; w_machines := w_machines w; w_next := w_next w;
     w_catalog := c; w_stdin := w_stdin w; w_stdout := w_stdout w |}.

Definition set_stdin (w : World) (lines : list string) : World :=
  {| w_games := w_games w; w_machines := w_machines w; w_next := w_next w;
     w_catalog := w_catalog w; w_stdin := lines; w_stdout := w_stdout w |}.

Definition emit (e : event) (w : World) : World :=
  {| w_games := w_games w; w_machines := w_machines w; w_next := w_next w;
     w_catalog := w_catalog w; w_stdin := w_stdin w;
     w_stdout := w_stdout w ++ [e] |}.

(** [print(text)] *)
Definition print (text : string) : cli unit := λ w, (Done tt, emit (Printed text) w).

(** [input(prompt)]: the prompt is written, then a line is read. *)
Definition input (prompt : string) : cli string := λ w,
  let w := emit (Prompted prompt) w in
  match w_stdin w with
  | [] => (Raised EOFError, w)
  | line :: rest => (Done line, set_stdin w rest)
  end.

(** Reading the state. *)
Definition get_catalog : cli CatalogManager := λ w, (Done (w_catalog w), w).
Definition get_machines : cli (machine_store float) := λ w, (Done (w_machines w), w).
Definition get_games : cli (games float) := λ w, (Done (w_games w), w).

(** A new object: it gets a reference that nobody holds. *)
Definition fresh_ref : cli ref := λ w, (Done (w_next w), set_next w (S (w_next w))).

(** The fields of the object under [r] are set. *)
Definition store_machine (r : ref) (m : Machine float) : cli unit := λ w,
  (Done tt, set_machines w (store_set (w_machines w) r m)).

Definition store_game (r : ref) (v : Videogame float) : cli unit := λ w,
  (Done tt, set_games w (λ r', if decide (r' = r) then v else w_games w r')).

(** [Machine(...)] evaluated. *)
Definition new_machine (m : Machine float) : cli ref :=
  r ← fresh_ref; _ ← store_machine r m; mret r.

(** [Videogame(...)] evaluated. *)
Definition new_game (v : Videogame float) : cli ref :=
  r ← fresh_ref; _ ← store_game r v; mret r.

(** [catalog.register_machine(machine)] *)
Definition register (machine : ref) : cli unit := λ w,
  (Done tt, set_catalog w (register_machine (w_catalog w) machine)).

(** [machine.add_videogame(game)] *)
Definition attach (machine game : ref) : cli unit := λ w,
  (Done tt, set_machines w (add_videogame_at (w_games w) (w_machines w) machine game)).

(** [catalog = CatalogManager()] *)
Definition new_catalog : cli unit := λ w, (Done tt, set_catalog w CatalogManager_init).

(** [l[i]]: a negative index counts from the end. *)
Definition getitem {A} (l : list A) (i : Z) : cli A :=
  let j := if (i <? 0)%Z then (Z.of_nat (length l) + i)%Z else i in
  match (if (j <? 0)%Z then None else l !! Z.to_nat j) with
  | Some x => mret x
  | None => raise IndexError
  end.

Fixpoint print_each (lines : list string) : cli unit :=
  match lines with
  | [] => mret tt
  | line :: lines => _ ← print line; print_each lines
  end.

Definition nl : string := String "010" "".

(** The lines of [for i, x in enumerate(items, 1): print(f"{i}. {x}")]. *)
Definition numbered (items : list string) : list string :=
  imap (λ i x, pretty (S i) +:+ ". " +:+ x) items.

Module CLI.
Section Builtins.
(** [int(text)] and [float(text)], [None] standing for [ValueError],
    [format(x, ".2f")], and [str.lower] as the searches use it. *)
Variable int_of : string → option Z.
Variable float_of : string → option float.
Variable format_2f : float → string.
Variable str_lower : string → string.

(** [int(text)] *)
Definition parse_int (text : string) : cli Z :=
  match int_of text with
  | Some n => mret n
  | None => raise CliValueError
  end.

(** [float(text)] *)
Definition parse_float (text : string) : cli float :=
  match float_of text with
  | Some x => mret x
  | None => raise CliValueError
  end.

Definition print_menu : cli unit :=
  _ ← print (nl +:+ "Arcade Machine Catalog Menu:");
  _ ← print "1. Create a new machine";
  _ ← print "2. Add a videogame to a machine";
  _ ← print "3. Search machines";
  _ ← print "4. List all machines";
  print "5. Exit".

Definition machine_types : list string :=
  ["DanceRevolution"; "ClassicalArcade"; "Shooting"; "Racing"; "VirtualReality"]%string.

Definition materials : list string := ["wood"; "aluminium"; "carbon fiber"]%string.

Definition out_of_range {A} (choice : Z) (l : list A) : bool :=
  (choice <? 0)%Z || (choice >=? Z.of_nat (length l))%Z.

Definition create_machine : cli unit :=
  _ ← print (nl +:+ "Available machine types:");
  _ ← print_each (numbered machine_types);
  text ← input "Select machine type (1-5): ";
  n ← parse_int text;
  let type_choice := (n - 1)%Z in
  if out_of_range type_choice machine_types then print "Invalid choice."
  else
    _ ← print (nl +:+ "Available materials:");
    _ ← print_each (numbered materials);
    text ← input "Select material (1-3): ";
    n ← parse_int text;
    let material_choice := (n - 1)%Z in
    if out_of_range material_choice materials then print "Invalid choice."
    else
      col ← input "Enter color: ";
      machine_type ← getitem machine_types type_choice;
      mat ← getitem materials material_choice;
      match MachineFactory.create_machine machine_type mat col with
      | Some m =>
          machine ← new_machine m;
          _ ← register machine;
          print ("Created " +:+ machine_type +:+ " machine with " +:+ mat +:+
                 " material and " +:+ col +:+ " color.")
      | None => print "Failed to create machine."
      end.

(** [f"{i}. {type(machine).__name__} ({machine.color})"]: every machine is an
    instance of [Machine]. *)
Definition machine_line (M : machine_store float) (i : nat) (machine : ref) : string :=
  pretty (S i) +:+ ". " +:+ "Machine" +:+ " (" +:+ color (M machine) +:+ ")".

Definition priced_line (M : machine_store float) (i : nat) (machine : ref) : string :=
  machine_line M i machine +:+ " - Price: $" +:+
  format_2f (calculate_total_price (M machine)).

Definition add_videogame : cli unit :=
  catalog ← get_catalog;
  if bool_decide (machines catalog = []) then
    print "No machines available. Create a machine first."
  else
    _ ← print (nl +:+ "Available machines:");
    M ← get_machines;
    _ ← print_each (imap (machine_line M) (machines catalog));
    text ← input ("Select a machine to add a videogame (1-" +:+
                  pretty (length (machines catalog)) +:+ "): ");
    n ← parse_int text;
    let choice := (n - 1)%Z in
    if out_of_range choice (machines catalog) then print "Invalid choice."
    else
      machine ← getitem (machines catalog) choice;
      title ← input "Enter videogame name: ";
      storytelling_creator ← input "Enter storytelling creator: ";
      graphics_creator ← input "Enter graphics creator: ";
      category ← input "Enter category: ";
      text ← input "Enter price: ";
      price ← parse_float text;
      text ← input "Enter year: ";
      year ← parse_int text;
      text ← input "Is it high definition? (y/n): ";
      let is_hd := bool_decide (lower text = "y") in
      game ← new_game (Videogame_init title storytelling_creator graphics_creator
                         category price year is_hd);
      _ ← attach machine game;
      G ← get_games;
      print ("Added " +:+ name (G game) +:+ " to the selected machine.").

Definition show_results (results : list ref) : cli unit :=
  match results with
  | [] => print "No machines found matching the search criteria."
  | _ =>
      _ ← print (nl +:+ "Search results:");
      M ← get_machines;
      print_each (imap (priced_line M) results)
  end.

Definition search_machines : cli unit :=
  _ ← print (nl +:+ "Search options:");
  _ ← print "1. By videogame count";
  _ ← print "2. By material";
  _ ← print "3. By videogame name";
  _ ← print "4. By price range";
  _ ← print "5. By weight range";
  _ ← print "6. By power consumption range";
  text ← input "Select search option (1-6): ";
  choice ← parse_int text;
  catalog ← get_catalog;
  M ← get_machines;
  G ← get_games;
  if bool_decide (choice = 1%Z) then
    text ← input "Enter videogame count: ";
    count ← parse_int text;
    show_results (search_by_videogame_count M catalog count)
  else if bool_decide (choice = 2%Z) then
    wanted ← input "Enter material: ";
    show_results (search_by_material str_lower M catalog wanted)
  else if bool_decide (choice = 3%Z) then
    wanted ← input "Enter videogame name: ";
    show_results (search_by_videogame_name str_lower G M catalog wanted)
  else if bool_decide (choice = 4%Z) then
    text ← input "Enter minimum price: ";
    min_price ← parse_float text;
    text ← input "Enter maximum price: ";
    max_price ← parse_float text;
    show_results (search_by_price_range M catalog min_price max_price)
  else if bool_decide (choice = 5%Z) then
    text ← input "Enter minimum weight: ";
    min_weight ← parse_float text;
    text ← input "Enter maximum weight: ";
    max_weight ← parse_float text;
    show_results (search_by_weight_range M catalog min_weight max_weight)
  else if bool_decide (choice = 6%Z) then
    text ← input "Enter minimum power consumption: ";
    min_power ← parse_float text;
    text ← input "Enter maximum power consumption: ";
    max_power ← parse_float text;
    show_results (search_by_power_consumption_range M catalog min_power max_power)
  else print "Invalid choice.".

Definition list_all_machines : cli unit :=
  catalog ← get_catalog;
  if bool_decide (machines catalog = []) then print "No machines in the catalog."
  else
    _ ← print (nl +:+ "All machines in the catalog:");
    M ← get_machines;
    print_each (imap (priced_line M) (machines catalog)).

(** One round of the [while True] loop of [main]. *)
Definition round : cli unit :=
  _ ← print_menu;
  choice ← input "Enter your choice (1-5): ";
  if bool_decide (choice = "1"%string) then create_machine
  else if bool_decide (choice = "2"%string) then add_videogame
  else if bool_decide (choice = "3"%string) then search_machines
  else if bool_decide (choice = "4"%string) then list_all_machines
  else if bool_decide (choice = "5"%string) then
    _ ← print "Thank you for using the Arcade Machine Catalog. Goodbye!";
    raise (SystemExit 0)
  else print "Invalid choice. Please try again.".

Fixpoint loop (fuel : nat) : cli unit :=
  match fuel with
  | 0 => out_of_fuel
  | S fuel => _ ← round; loop fuel
  end.

(** [main]: [fuel] bounds the number of rounds. *)
Definition main (fuel : nat) : cli unit :=
  _ ← new_catalog;
  loop fuel.
End Builtins.
End CLI.

(** The exceptions a mistyped or truncated input can cause. *)
Definition input_error (e : cli_exception) : Prop := e = CliValueError ∨ e = EOFError.

(** Every run of [c] relates the world before and after by [I], and ends
    normally or with an exception in [E]. *)
Definition behaves {A} (I : relation World) (E : cli_exception → Prop) (c : cli A) : Prop :=
  ∀ w, I w (c w).2 ∧
       match (c w).1 with
       | Done _ => True
       | Raised e => E e
       | OutOfFuel => False
       end.

(** Only the terminal moved: no object and no catalog entry was touched. *)
Definition same_objects : relation World := λ w w',
  w_games w' = w_games w ∧ w_machines w' = w_machines w ∧
  w_next w' = w_next w ∧ w_catalog w' = w_catalog w.

(** The line [text] was not printed. *)
Definition never_prints (text : string) : relation World := λ w w',
  ∃ written, w_stdout w' = w_stdout w ++ written ∧ Printed text ∉ written.

(** Either nothing happened to the objects, or one machine that the factory
    built from a listed type and a listed material was stored under the next
    free reference and registered. *)
Definition registers_new_machine : relation World := λ w w',
  same_objects w w' ∨
  ∃ ty mat col m, ty ∈ CLI.machine_types ∧ mat ∈ CLI.materials ∧
    MachineFactory.create_machine ty mat col = Some m ∧
    w_games w' = w_games w ∧
    w_machines w' = store_set (w_machines w) (w_next w) m ∧
    w_next w' = S (w_next w) ∧
    w_catalog w' = register_machine (w_catalog w) (w_next w).

(** Either nothing happened to the objects, or one new game was stored under
    the next free reference and attached to one registered machine. *)
Definition attaches_new_game : relation World := λ w w',
  same_objects w w' ∨
  ∃ machine v, machine ∈ machines (w_catalog w) ∧
    w_games w' = (λ r, if decide (r = w_next w) then v else w_games w r) ∧
    w_machines w' = add_videogame_at (w_games w') (w_machines w) machine (w_next w) ∧
    w_next w' = S (w_next w) ∧
    w_catalog w' = w_catalog w.

(** What holds of the objects throughout a session: no machine is registered
    twice, every registered machine is made of a listed material, no game is
    attached twice or to two machines, and every reference in use is below
    the next free one. *)
Definition session_invariant (w : World) : Prop :=
  NoDup (machines (w_catalog w)) ∧
  (∀ r, r ∈ machines (w_catalog w) →
     r < w_next w ∧ material (w_machines w r) ∈ CLI.materials ∧
     NoDup (videogames (w_machines w r))) ∧
  (∀ r g, r ∈ machines (w_catalog w) → g ∈ videogames (w_machines w r) →
     g < w_next w ∧ g ∉ machines (w_catalog w)) ∧
  (∀ r r' g, r ∈ machines (w_catalog w) → r' ∈ machines (w_catalog w) →
     g ∈ videogames (w_machines w r) → g ∈ videogames (w_machines w r') → r = r').

(** How a round of the menu may end other than normally. *)
Definition round_exit (e : cli_exception) : Prop := input_error e ∨ e = SystemExit 0.

(** Input is only consumed. *)
Definition consumes_input : relation World := λ w w',
  ∃ read, w_stdin w = read ++ w_stdin w'.

(** A step that cannot break the invariant. *)
Definition keeps_invariant : relation World := λ w w',
  session_invariant w → session_invariant w'.

(** No restriction on how a run ends. *)
Definition any_exception (e : cli_exception) : Prop := True.

(** ** A sample session

    Stand-ins for [int()] and [float()] that accept what the sample sessions
    type: unsigned decimal numbers, and two prices. *)
Fixpoint demo_digits (acc : Z) (s : string) : option Z :=
  match s with
  | EmptyString => Some acc
  | String c s' =>
      let n := Ascii.N_of_ascii c in
      if ((48 <=? n) && (n <=? 57))%N then demo_digits (10 * acc + Z.of_N (n - 48)) s'
      else None
  end.

Definition demo_int (s : string) : option Z :=
  match s with
  | EmptyString => None
  | _ => demo_digits 0 s
  end.

Definition demo_float (s : string) : option float :=
  if bool_decide (s = "59.99"%string) then Some 59.99%float
  else if bool_decide (s = "inf"%string) then Some PrimFloat.infinity
  else None.

Definition demo_format (x : float) : string := "?".

(** The world in which the program starts. *)
Definition boot (lines : list string) : World :=
  {| w_games := sample_games; w_machines := sample_store; w_next := 0;
     w_catalog := CatalogManager_init; w_stdin := lines; w_stdout := [] |}.

(** A session: build the aluminium racing machine, give it a game in high
    definition, list, and leave. *)
Definition demo_session : list string :=
  ["1"; "4"; "2"; "Red";
   "2"; "1"; "Pole Position"; "Namco"; "Namco"; "Racing"; "59.99"; "1982"; "Y";
   "4"; "5"; "never read"]%string.

(** A world with the sample catalog in place. *)
Definition demo_world : World :=
  {| w_games := sample_games; w_machines := sample_store; w_next := 7;
     w_catalog := sample_catalog;
     w_stdin := ["2"; "Pole Position"; "Namco"; "Namco"; "Racing"; "59.99"; "1982";
                 "Y"; "5"]%string;
     w_stdout := [] |}.

(** * Properties *)

(** ** Floats *)

(** Two floats that Python's [==] tells apart are different values. *)
Lemma float_neq (x y : float) :
  PrimFloat.eqb x y = false → PrimFloat.eqb y y = true → x ≠ y.
Proof. intros Hxy Hyy ->. congruence. Qed.

(** Python's [lo > hi] on floats leaves no [x] with [lo <= x <= hi]; the
    comparisons are those of IEEE 754, in which a NaN compares false. *)
Lemma SF_between_empty (lo x hi : spec_float) :
  SFltb hi lo = true → SFleb lo x = true → SFleb x hi = true → False.
Proof.
  unfold SFltb, SFleb.
  destruct lo as [[]|[]| |[] mlo elo], x as [[]|[]| |[] mx ex],
           hi as [[]|[]| |[] mhi ehi];
    simpl; try discriminate;
    destruct (Z.compare_spec ehi elo), (Z.compare_spec elo ex), (Z.compare_spec ex ehi);
    simpl; try discriminate; try lia;
    subst;
    rewrite ?Pos.compare_cont_spec; simpl;
    destruct (Pos.compare_spec mhi mlo), (Pos.compare_spec mlo mx),
             (Pos.compare_spec mx mhi);
    simpl; try discriminate; lia.
Qed.

Lemma float_between_empty (lo x hi : float) :
  PrimFloat.ltb hi lo = true → between lo x hi = false.
Proof.
  intros Hlt. apply not_true_is_false. unfold between. simpl.
  rewrite andb_true_iff. intros [Hlo Hhi]. revert Hlt Hlo Hhi.
  rewrite ltb_spec, !leb_spec. apply SF_between_empty.
Qed.

Lemma between_true (lo x hi : float) :
  between lo x hi = true ↔ PrimFloat.leb lo x = true ∧ PrimFloat.leb x hi = true.
Proof. unfold between. simpl. apply andb_true_iff. Qed.

(** ** Videogame construction *)

(** C4: a high-definition game stores its input price multiplied by 1.1 once,
    any other game stores the input price as given; every other field is the
    argument itself, and the constructor is a total function. *)
Theorem Videogame_init_price (n sc gc cat : string) (p : float) (y : Z) :
  price (Videogame_init n sc gc cat p y true) = (p * 1.1)%float ∧
  price (Videogame_init n sc gc cat p y false) = p ∧
  ∀ hd, let v := Videogame_init n sc gc cat p y hd in
    name v = n ∧ storytelling_creator v = sc ∧ graphics_creator v = gc ∧
    category v = cat ∧ year v = y ∧ is_high_definition v = hd.
Proof. repeat split. Qed.

(** The markup is not compounded: a 3.0 game in high definition costs
    3.0 * 1.1, not 3.0 * 1.1 * 1.1. *)
Example Videogame_init_hd_once :
  let v := Videogame_init "Galaga" "S" "G" "Shooter" 3 1981 true in
  price v = 3.3000000000000003%float ∧ price v ≠ (3 * 1.1 * 1.1)%float.
Proof. split; [reflexivity|]. by apply float_neq. Qed.

(** ** Attaching and detaching games *)

Lemma list_remove_elem_of (x : ref) (l : list ref) :
  x ∈ l →
  ∃ l1 l2, l = l1 ++ (x :: l2) ∧ (x ∉ l1) ∧ list_remove x l = Returns (l1 ++ l2).
Proof.
  induction l as [|y l IH]; intros Hin.
  - by apply elem_of_nil in Hin.
  - simpl. destruct (decide (y = x)) as [->|Hne].
    + exists [], l. split; [done|]. split; [apply not_elem_of_nil|done].
    + apply elem_of_cons in Hin as [->|Hin]; [done|].
      destruct (IH Hin) as (l1 & l2 & -> & Hl1 & ->).
      exists (y :: l1), l2. split; [done|]. split; [|done].
      apply not_elem_of_cons. split; [congruence|done].
Qed.

Lemma list_remove_not_elem_of (x : ref) (l : list ref) :
  x ∉ l → list_remove x l = Raises ValueError.
Proof.
  induction l as [|y l IH]; intros Hnin; [done|].
  apply not_elem_of_cons in Hnin as [Hne Hnin]. simpl.
  destruct (decide (y = x)); [congruence|]. by rewrite IH.
Qed.

Section MachineFacts.
Context {R : Type} `{Number R}.
Variable G : games R.

Lemma add_videogame_fields (self : Machine R) (game : ref) :
  videogames (add_videogame G self game) = videogames self ++ [game] ∧
  base_price (add_videogame G self game) = num_add (base_price self) (price (G game)).
Proof. done. Qed.

Lemma remove_videogame_present (self : Machine R) (game : ref) :
  game ∈ videogames self →
  ∃ l1 l2, videogames self = l1 ++ (game :: l2) ∧ (game ∉ l1) ∧
    remove_videogame G self game =
      Returns (set_base_price (set_videogames self (l1 ++ l2))
                 (num_sub (base_price self) (price (G game)))).
Proof.
  intros Hin. destruct (list_remove_elem_of _ _ Hin) as (l1 & l2 & E & Hl1 & Hrm).
  exists l1, l2. split; [done|]. split; [done|].
  unfold remove_videogame, list_contains. rewrite bool_decide_eq_true_2 by done.
  by rewrite Hrm.
Qed.

Lemma remove_videogame_absent (self : Machine R) (game : ref) :
  game ∉ videogames self → remove_videogame G self game = Returns self.
Proof.
  intros Hnin. unfold remove_videogame, list_contains.
  by rewrite bool_decide_eq_false_2.
Qed.

Lemma remove_videogame_frame (self : Machine R) (game : ref) :
  ∃ self', remove_videogame G self game = Returns self' ∧ same_frame self self'.
Proof.
  destruct (decide (game ∈ videogames self)) as [Hin|Hnin].
  - destruct (remove_videogame_present self game Hin) as (l1 & l2 & _ & _ & ->).
    eexists; split; [done|]. by repeat split.
  - rewrite remove_videogame_absent by done.
    eexists; split; [done|]. by repeat split.
Qed.

(** No script of calls raises, whatever the numbers are. *)
Lemma perform_all_returns (m : Machine R) (cs : list call) :
  ∃ m', perform_all G m cs = Returns m'.
Proof.
  revert m. induction cs as [|c cs IH]; intros m; [by eexists|].
  destruct c as [g|g]; simpl; [apply IH|].
  destruct (remove_videogame_frame m g) as (m' & -> & _). apply IH.
Qed.
End MachineFacts.

(** C5: [remove_videogame] compares references.  When the game is attached,
    its first occurrence is dropped and [base_price] decreases by the game's
    price; when it is not, the machine is returned as it was, also when a
    different object with the same field values is attached.  No call raises:
    [list.remove] is reached only behind the membership test. *)
Theorem remove_videogame_spec {R : Type} `{Number R} (G : games R)
    (self : Machine R) (game : ref) :
  (game ∈ videogames self →
     ∃ l1 l2, videogames self = l1 ++ (game :: l2) ∧ (game ∉ l1) ∧
       remove_videogame G self game =
         Returns (set_base_price (set_videogames self (l1 ++ l2))
                    (num_sub (base_price self) (price (G game))))) ∧
  (game ∉ videogames self → remove_videogame G self game = Returns self) ∧
  (∀ twin, G twin = G game → twin ∈ videogames self → game ∉ videogames self →
     remove_videogame G self game = Returns self).
Proof.
  split; [apply remove_videogame_present|].
  split; [apply remove_videogame_absent|].
  intros twin _ _. apply remove_videogame_absent.
Qed.

Lemma remove_videogame_spec_witness :
  (* first occurrence only *)
  remove_videogame sample_games (set_videogames sample_machine [3; 1; 3]) 3 =
    Returns (set_base_price (set_videogames sample_machine [1; 3]) (4000 - 20 * 1.1)%float) ∧
  (* reference 2 is not attached, although it equals the attached game 1 field by field *)
  sample_games 2 = sample_games 1 ∧
  remove_videogame sample_games (set_videogames sample_machine [3; 1; 3]) 2 =
    Returns (set_videogames sample_machine [3; 1; 3]).
Proof.
  pose proof (remove_videogame_spec sample_games
                (set_videogames sample_machine [3; 1; 3])) as S.
  split; [|split; [reflexivity|]].
  - destruct (S 3) as [(l1 & l2 & E & Hl1 & ->) _].
    { apply list_elem_of_here. }
    destruct l1 as [|a l1]; [by simplify_eq/=|].
    simplify_eq/=. exfalso. apply Hl1, list_elem_of_here.
  - destruct (S 2) as (_ & _ & Htwin). apply (Htwin 1); [reflexivity| |].
    + apply list_elem_of_further, list_elem_of_here.
    + literal_not_elem_of.
Defined.

(** C9: [add_videogame] and [remove_videogame] leave material, dimensions,
    weight, power consumption, memory, processors, colour and the attached
    extras as they were, whether or not the game is attached. *)
Theorem add_remove_frame {R : Type} `{Number R} (G : games R)
    (self : Machine R) (game : ref) :
  same_frame self (add_videogame G self game) ∧
  ∃ self', remove_videogame G self game = Returns self' ∧ same_frame self self'.
Proof. split; [by repeat split|apply remove_videogame_frame]. Qed.

(** ** Factory *)

Lemma predefined_machines_None (machine_type : string) :
  machine_type ∉ machine_types → MachineFactory.predefined_machines !! machine_type = None.
Proof.
  unfold machine_types. rewrite !not_elem_of_cons. intros (? & ? & ? & ? & ? & _).
  unfold MachineFactory.predefined_machines.
  by rewrite !lookup_insert_ne, lookup_empty.
Qed.

Lemma predefined_machines_Some (machine_type : string) :
  machine_type ∈ machine_types → is_Some (MachineFactory.predefined_machines !! machine_type).
Proof.
  unfold machine_types. rewrite !elem_of_cons, elem_of_nil.
  intros [->|[->|[->|[->|[->|[]]]]]]; by eexists.
Qed.

Lemma material_decorators_None (key : string) :
  key ∉ known_materials → MachineFactory.material_decorators !! key = None.
Proof.
  unfold known_materials. rewrite !not_elem_of_cons. intros (? & ? & ? & _).
  unfold MachineFactory.material_decorators.
  by rewrite !lookup_insert_ne, lookup_empty.
Qed.

(** A known machine type always yields a machine, whatever the material. *)
Lemma create_machine_known_type (machine_type material color : string) :
  machine_type ∈ machine_types →
  is_Some (MachineFactory.create_machine machine_type material color).
Proof.
  intros [t Ht]%predefined_machines_Some.
  unfold MachineFactory.create_machine. rewrite Ht.
  by destruct (MachineFactory.material_decorators !! lower material).
Qed.

(** C3: a machine type that is not, letter for letter, one of the five keys
    makes [create_machine] return [None]; nothing is raised on the way, the
    lookup being the only step taken. *)
Theorem create_machine_unknown_type (machine_type material color : string) :
  machine_type ∉ machine_types →
  MachineFactory.create_machine machine_type material color = None.
Proof.
  intros Hty. unfold MachineFactory.create_machine.
  by rewrite predefined_machines_None.
Qed.

Lemma create_machine_unknown_type_witness :
  MachineFactory.create_machine "Unknown" "wood" "Blue" = None.
Proof. apply create_machine_unknown_type. literal_not_elem_of. Defined.

(** The lookup is case sensitive. *)
Example create_machine_lowercase_type :
  MachineFactory.create_machine "racing" "wood" "Blue" = None.
Proof. reflexivity. Qed.

(** C6: with a known machine type and a material whose lower-cased form is
    none of the three decorator keys, [create_machine] returns the machine
    exactly as the template built it. *)
Theorem create_machine_unknown_material
    (machine_type material color : string) (machine_creator : PredefinedMachine) :
  MachineFactory.predefined_machines !! machine_type = Some machine_creator →
  lower material ∉ known_materials →
  MachineFactory.create_machine machine_type material color =
    Some (Template.create_machine machine_creator material color).
Proof.
  intros Hty Hmat. unfold MachineFactory.create_machine.
  by rewrite Hty, material_decorators_None.
Qed.

Lemma create_machine_unknown_material_witness :
  ∃ m, MachineFactory.create_machine "Racing" "Titanium" "Red" = Some m ∧
    material m = "Titanium"%string ∧ weight m = 180%float ∧
    base_price m = 6000%float ∧ power_consumption m = 1200%float.
Proof.
  eexists. split.
  - apply (create_machine_unknown_material "Racing" "Titanium" "Red" RacingMachine).
    + reflexivity.
    + literal_not_elem_of.
  - repeat split.
Defined.

(** C2, as the specification words it: the aluminium racing machine has base
    price 6600.0.  It does not: 1.1 is not a binary64 value, and the product
    with 6000 rounds to the next float above 6600. *)
Lemma racing_aluminium_price_not_6600 :
  ¬ ∃ m, MachineFactory.create_machine "Racing" "Aluminium" "Red" = Some m ∧
      weight m = 171%float ∧ base_price m = 6600%float ∧
      power_consumption m = 1200%float.
Proof.
  intros (m & E & _ & Hp & _). vm_compute in E. injection E as <-.
  revert Hp. by apply float_neq.
Qed.

(** C2, amended: ["Aluminium"] selects the aluminium decorator; the weight is
    180 * 0.95, which is 171.0; the power consumption stays 1200; the base
    price is the binary64 product 6000 * 1.1, that is 6600.000000000001, one
    unit in the last place (2^-40) above 6600. *)
Theorem create_machine_racing_aluminium :
  ∃ m, MachineFactory.create_machine "Racing" "Aluminium" "Red" = Some m ∧
    MachineFactory.material_decorators !! lower "Aluminium" = Some AluminiumMaterialDecorator ∧
    material m = "Aluminium"%string ∧
    weight m = (180 * 0.95)%float ∧ weight m = 171%float ∧
    power_consumption m = 1200%float ∧
    base_price m = (6000 * 1.1)%float ∧
    base_price m = 6600.000000000001%float ∧
    (base_price m - 6600)%float = 0x1p-40%float.
Proof. eexists. split; [reflexivity|]. repeat split. Qed.

(** ** Material adjustments *)

Lemma create_machine_decorated
    (machine_type material color : string) machine_creator decorator :
  MachineFactory.predefined_machines !! machine_type = Some machine_creator →
  MachineFactory.material_decorators !! lower material = Some decorator →
  MachineFactory.create_machine machine_type material color =
    Some (apply_in_order (adjustments decorator)
            (Template.create_machine machine_creator material color)).
Proof.
  intros Hty Hmat. unfold MachineFactory.create_machine. by rewrite Hty, Hmat.
Qed.

(** Updates that commute pairwise can be run in any order. *)
Lemma apply_in_order_Permutation {A} (steps steps' : list (A → A)) :
  steps ≡ₚ steps' →
  (∀ f g, f ∈ steps → g ∈ steps → ∀ a, f (g a) = g (f a)) →
  ∀ a, apply_in_order steps a = apply_in_order steps' a.
Proof.
  unfold apply_in_order.
  induction 1 as [|f l l' Hl IH|f g l|l l' l'' Hl IH Hl' IH']; intros Hcomm a.
  - done.
  - simpl. apply IH. intros; apply Hcomm; by apply list_elem_of_further.
  - simpl. f_equal. apply Hcomm.
    + apply list_elem_of_further, list_elem_of_here.
    + apply list_elem_of_here.
  - rewrite IH by done. apply IH'.
    intros f g Hf Hg. apply Hcomm; by rewrite Hl.
Qed.

(** Each step writes one field, computed from that field alone. *)
Lemma adjust_weight_own_field (self : MaterialDecorator) (m : Machine float) :
  adjust_weight self m = set_weight m (weight (adjust_weight self m)) ∧
  ∀ m', weight m' = weight m →
    weight (adjust_weight self m') = weight (adjust_weight self m).
Proof. destruct self, m; split; try done; by intros [] [= ->]. Qed.

Lemma adjust_price_own_field (self : MaterialDecorator) (m : Machine float) :
  adjust_price self m = set_base_price m (base_price (adjust_price self m)) ∧
  ∀ m', base_price m' = base_price m →
    base_price (adjust_price self m') = base_price (adjust_price self m).
Proof. destruct self, m; split; try done; by intros [] [= ->]. Qed.

Lemma adjust_power_consumption_own_field (self : MaterialDecorator) (m : Machine float) :
  adjust_power_consumption self m =
    set_power_consumption m (power_consumption (adjust_power_consumption self m)) ∧
  ∀ m', power_consumption m' = power_consumption m →
    power_consumption (adjust_power_consumption self m') =
    power_consumption (adjust_power_consumption self m).
Proof. destruct self, m; split; try done; by intros [] [= ->]. Qed.

Lemma adjustments_commute (self : MaterialDecorator) f g :
  f ∈ adjustments self → g ∈ adjustments self → ∀ m, f (g m) = g (f m).
Proof.
  unfold adjustments. rewrite !elem_of_cons, !elem_of_nil.
  intros [->|[->|[->|[]]]] [->|[->|[->|[]]]] m; by destruct self.
Qed.

(** C8: for each decorator and machine, running [adjust_weight],
    [adjust_price] and [adjust_power_consumption] once each, in any of the
    six orders, gives the machine that the factory's order gives: each of the
    three fields is the one its own step computes from the original machine,
    and nothing else changes. *)
Theorem adjustments_any_order (self : MaterialDecorator) (m : Machine float)
    (steps : list (Machine float → Machine float)) :
  steps ≡ₚ adjustments self →
  apply_in_order steps m = apply_in_order (adjustments self) m ∧
  weight (apply_in_order steps m) = weight (adjust_weight self m) ∧
  base_price (apply_in_order steps m) = base_price (adjust_price self m) ∧
  power_consumption (apply_in_order steps m) =
    power_consumption (adjust_power_consumption self m) ∧
  material (apply_in_order steps m) = material m ∧
  dimensions (apply_in_order steps m) = dimensions m ∧
  memory (apply_in_order steps m) = memory m ∧
  processors (apply_in_order steps m) = processors m ∧
  color (apply_in_order steps m) = color m ∧
  videogames (apply_in_order steps m) = videogames m ∧
  extras (apply_in_order steps m) = extras m.
Proof.
  intros Hperm.
  assert (apply_in_order steps m = apply_in_order (adjustments self) m) as ->.
  { apply apply_in_order_Permutation; [done|].
    intros f g Hf Hg. apply adjustments_commute with self; by rewrite <- Hperm. }
  split; [done|]. by destruct self.
Qed.

Lemma adjustments_any_order_witness :
  let m := Template.create_machine DanceRevolutionMachine "wood" "Green" in
  apply_in_order [adjust_power_consumption WoodMaterialDecorator;
                  adjust_weight WoodMaterialDecorator;
                  adjust_price WoodMaterialDecorator] m =
  apply_in_order (adjustments WoodMaterialDecorator) m.
Proof.
  intros m.
  apply (adjustments_any_order WoodMaterialDecorator m).
  unfold adjustments.
  etrans; [apply perm_swap|]. apply perm_skip, perm_swap.
Defined.

(** ** Catalog searches *)

Lemma filter_selection {A} (P : A → Prop) `{∀ x, Decision (P x)} (l : list A) :
  selection P l (filter P l).
Proof.
  split; [apply sublist_filter|]. split.
  - apply Forall_forall. by intros x [? _]%list_elem_of_filter.
  - intros l'. revert l. induction l' as [|x l' IH]; intros l Hsub HP.
    + apply sublist_nil_l.
    + apply sublist_cons_l in Hsub as (l1 & l2 & -> & Hsub).
      apply Forall_cons in HP as [Hx HP].
      rewrite filter_app, filter_cons_True by done.
      apply sublist_inserts_l, sublist_skip, IH; done.
Qed.

(** A selection is determined by the list and the test. *)
Lemma selection_unique {A} (P : A → Prop) (l r r' : list A) :
  selection P l r → selection P l r' → r = r'.
Proof.
  intros (Hs & HP & Hmax) (Hs' & HP' & Hmax').
  apply (anti_symm sublist); auto.
Qed.

Lemma filter_nil_Forall {A} (P : A → Prop) `{∀ x, Decision (P x)} (l : list A) :
  Forall (λ x, ¬ P x) l → filter P l = [].
Proof.
  induction 1 as [|x l Hx _ IH]; [done|]. by rewrite filter_cons_False.
Qed.

Lemma range_filter_elem_of (field : ref → float) (l : list ref) (lo hi : float) (m : ref) :
  m ∈ filter (λ m, between lo (field m) hi = true) l ↔
  m ∈ l ∧ PrimFloat.leb lo (field m) = true ∧ PrimFloat.leb (field m) hi = true.
Proof. rewrite list_elem_of_filter, between_true. tauto. Qed.

Lemma range_filter_empty (field : ref → float) (l : list ref) (lo hi : float) :
  PrimFloat.ltb hi lo = true → filter (λ m, between lo (field m) hi = true) l = [].
Proof.
  intros Hlt. apply filter_nil_Forall, Forall_forall. intros m _.
  by rewrite float_between_empty.
Qed.

(** C7: each range search returns the selection of the registered machines
    whose field [x] satisfies [lo <= x <= hi]: those entries and no others,
    with their multiplicity, in registration order.  The search is a function
    of the catalog and returns only the list, so the store is as it was.  When
    [lo > hi] the result is empty.  With weights 100, 171 and 250 registered
    in that order, the weight range 150..200 selects the second machine
    alone. *)
Theorem range_searches_spec (M : machine_store float) (self : CatalogManager)
    (lo hi : float) :
  (selection (λ m, between lo (calculate_total_price (M m)) hi = true)
     (machines self) (search_by_price_range M self lo hi) ∧
   selection (λ m, between lo (weight (M m)) hi = true)
     (machines self) (search_by_weight_range M self lo hi) ∧
   selection (λ m, between lo (power_consumption (M m)) hi = true)
     (machines self) (search_by_power_consumption_range M self lo hi)) ∧
  (∀ m,
     (m ∈ search_by_price_range M self lo hi ↔
        m ∈ machines self ∧ PrimFloat.leb lo (calculate_total_price (M m)) = true ∧
        PrimFloat.leb (calculate_total_price (M m)) hi = true) ∧
     (m ∈ search_by_weight_range M self lo hi ↔
        m ∈ machines self ∧ PrimFloat.leb lo (weight (M m)) = true ∧
        PrimFloat.leb (weight (M m)) hi = true) ∧
     (m ∈ search_by_power_consumption_range M self lo hi ↔
        m ∈ machines self ∧ PrimFloat.leb lo (power_consumption (M m)) = true ∧
        PrimFloat.leb (power_consumption (M m)) hi = true)) ∧
  (PrimFloat.ltb hi lo = true →
     search_by_price_range M self lo hi = [] ∧
     search_by_weight_range M self lo hi = [] ∧
     search_by_power_consumption_range M self lo hi = []) ∧
  (∀ m1 m2 m3,
     weight (M m1) = 100%float → weight (M m2) = 171%float → weight (M m3) = 250%float →
     search_by_weight_range M
       (register_machine (register_machine (register_machine CatalogManager_init m1) m2) m3)
       150%float 200%float = [m2]).
Proof.
  split; [|split; [|split]].
  - split; [|split]; apply filter_selection.
  - intros m. split; [|split]; apply range_filter_elem_of.
  - intros Hlt. split; [|split]; by apply range_filter_empty.
  - intros m1 m2 m3 H1 H2 H3.
    unfold search_by_weight_range, register_machine, CatalogManager_init. simpl.
    rewrite filter_cons_False, filter_cons_True, filter_cons_False, filter_nil;
      [done|by rewrite H3|by rewrite H2|by rewrite H1].
Qed.

Lemma range_searches_spec_witness :
  search_by_weight_range sample_store sample_catalog 150%float 200%float = [1] ∧
  search_by_price_range sample_store sample_catalog 7000%float 3000%float = [] ∧
  search_by_power_consumption_range sample_store sample_catalog 1200%float 500%float = [].
Proof.
  split.
  - pose proof (range_searches_spec sample_store sample_catalog 0%float 0%float) as (_ & _ & _ & Hex).
    by apply (Hex 0 1 2).
  - split.
    + pose proof (range_searches_spec sample_store sample_catalog 7000%float 3000%float)
        as (_ & _ & Hempty & _).
      by apply Hempty.
    + pose proof (range_searches_spec sample_store sample_catalog 1200%float 500%float)
        as (_ & _ & Hempty & _).
      by apply Hempty.
Defined.

(** The selections by price, taken in the other direction, are not empty:
    the catalog does hold machines between 3000 and 7000. *)
Example price_range_sample :
  search_by_price_range sample_store sample_catalog 3000%float 7000%float = [0; 1; 2].
Proof. reflexivity. Qed.

(** C10: [search_by_videogame_count] accepts any integer; for a negative
    count it returns the empty list, no list having a negative length. *)
Theorem search_by_videogame_count_negative {R : Type} (M : machine_store R)
    (self : CatalogManager) (count : Z) :
  (count < 0)%Z → search_by_videogame_count M self count = [].
Proof.
  intros Hneg. apply filter_nil_Forall, Forall_forall. intros m _. lia.
Qed.

Lemma search_by_videogame_count_negative_witness :
  search_by_videogame_count sample_store sample_catalog (-1) = [].
Proof. apply search_by_videogame_count_negative. lia. Defined.

Example search_by_videogame_count_zero :
  search_by_videogame_count sample_store sample_catalog 0 = [0; 1; 2].
Proof. reflexivity. Qed.

(** ** The price invariant *)

(** [calculate_total_price] reads the field; it does not walk the list. *)
Lemma calculate_total_price_reads_field {R : Type} (m : Machine R) :
  calculate_total_price m = base_price m.
Proof. reflexivity. Qed.

Section ExactPrices.
Context {R : Type} `{ExactNumber R}.
Variable G : games R.

Lemma fold_prices_shift (l : list ref) (a b : R) :
  fold_left (λ acc g, num_add acc (price (G g))) l (num_add a b) =
  num_add (fold_left (λ acc g, num_add acc (price (G g))) l a) b.
Proof.
  revert a. induction l as [|g l IH]; intros a; [done|]. simpl.
  rewrite <- IH. f_equal.
  rewrite <- !num_add_assoc. f_equal. apply num_add_comm.
Qed.

Lemma sum_prices_snoc (l : list ref) (g : ref) :
  sum_prices G (l ++ [g]) = num_add (sum_prices G l) (price (G g)).
Proof. unfold sum_prices. by rewrite fold_left_app. Qed.

Lemma sum_prices_middle (l1 l2 : list ref) (g : ref) :
  sum_prices G (l1 ++ (g :: l2)) = num_add (sum_prices G (l1 ++ l2)) (price (G g)).
Proof.
  unfold sum_prices. rewrite !fold_left_app. simpl. apply fold_prices_shift.
Qed.

Lemma add_videogame_accounted (own : R) (m : Machine R) (g : ref) :
  accounted G own m → accounted G own (add_videogame G m g).
Proof.
  unfold accounted. intros E. simpl. by rewrite sum_prices_snoc, E, num_add_assoc.
Qed.

Lemma remove_videogame_accounted (own : R) (m : Machine R) (g : ref) :
  accounted G own m →
  ∃ m', remove_videogame G m g = Returns m' ∧ accounted G own m'.
Proof.
  unfold accounted. intros E.
  destruct (decide (g ∈ videogames m)) as [Hin|Hnin].
  - destruct (remove_videogame_present G m g Hin) as (l1 & l2 & El & _ & ->).
    eexists; split; [done|]. simpl.
    by rewrite E, El, sum_prices_middle, num_add_assoc, num_sub_add.
  - rewrite remove_videogame_absent by done. by eexists.
Qed.

Lemma perform_all_accounted (own : R) (m : Machine R) (cs : list call) :
  accounted G own m →
  ∃ m', perform_all G m cs = Returns m' ∧ accounted G own m'.
Proof.
  revert m. induction cs as [|c cs IH]; intros m Hm; [by eexists|].
  destruct c as [g|g]; simpl.
  - by apply IH, add_videogame_accounted.
  - destruct (remove_videogame_accounted own m g Hm) as (m' & -> & Hm').
    by apply IH.
Qed.

Lemma fresh_accounted (m : Machine R) :
  videogames m = [] → accounted G (base_price m) m.
Proof.
  unfold accounted, sum_prices. intros ->. simpl. by rewrite num_add_zero_r.
Qed.
End ExactPrices.

(** C1, as the specification words it, for the binary64 prices the factory
    produces: a shooting machine costs 4000; attaching a game priced 100.1 and
    detaching it again leaves no game attached, and a total of
    4000.0000000000005. *)
Lemma total_price_drifts :
  videogames sample_machine = [] ∧
  MachineFactory.create_machine "Shooting" "steel" "Blue" = Some sample_machine ∧
  ¬ total_price_is_sum sample_games sample_machine [Add 1; Remove 1].
Proof.
  split; [reflexivity|]. split; [reflexivity|].
  intros (m' & E & _ & Hsum). vm_compute in E. injection E as <-.
  revert Hsum. by apply float_neq.
Qed.

(** The two sides at that input. *)
Example total_price_drift_values :
  ∃ m', perform_all sample_games sample_machine [Add 1; Remove 1] = Returns m' ∧
    videogames m' = [] ∧
    calculate_total_price m' = 4000.0000000000005%float ∧
    num_add (base_price sample_machine) (sum_prices sample_games (videogames m')) =
      4000%float.
Proof. eexists. split; [reflexivity|]. by repeat split. Qed.

(** C1, amended: for every machine and every number type, [float] included,
    each script of [add_videogame]/[remove_videogame] calls returns (no call
    raises), and [calculate_total_price] is then the [base_price] field, read
    without summing the list.  When moreover the arithmetic on prices is
    exact ([ExactNumber], as for Python [int]) and the machine started
    without games, that value is the starting base price plus the sum of the
    prices of the attached games. *)
Theorem total_price_exact {R : Type} `{Number R} (G : games R)
    (m0 : Machine R) (cs : list call) :
  ∃ m', perform_all G m0 cs = Returns m' ∧
    calculate_total_price m' = base_price m' ∧
    (ExactNumber R → videogames m0 = [] →
       calculate_total_price m' =
         num_add (base_price m0) (sum_prices G (videogames m'))).
Proof.
  destruct (perform_all_returns G m0 cs) as [m' E].
  exists m'. split; [done|]. split; [done|].
  intros Hexact Hfresh.
  destruct (perform_all_accounted G (base_price m0) m0 cs) as (m'' & E' & Hm'').
  { by apply fresh_accounted. }
  rewrite E in E'. injection E' as <-. exact Hm''.
Qed.

Lemma total_price_exact_witness :
  total_price_is_sum int_games int_machine [Add 1; Add 2; Add 1; Remove 1; Remove 5] ∧
  ∃ m', perform_all sample_games sample_machine [Add 1; Remove 1] = Returns m' ∧
    calculate_total_price m' = base_price m'.
Proof.
  split.
  - destruct (total_price_exact int_games int_machine
                [Add 1; Add 2; Add 1; Remove 1; Remove 5]) as (m' & E & Hfield & Hsum).
    exists m'. split; [done|]. split; [done|].
    apply Hsum; [apply int_ExactNumber|reflexivity].
  - destruct (total_price_exact sample_games sample_machine [Add 1; Remove 1])
      as (m' & E & Hfield & _).
    by exists m'.
Defined.

Example total_price_int_values :
  ∃ m', perform_all int_games int_machine [Add 1; Add 2; Add 1; Remove 1; Remove 5] =
          Returns m' ∧
    videogames m' = [2; 1] ∧ calculate_total_price m' = 3053%Z.
Proof. eexists. split; [reflexivity|]. by split. Qed.

(** * Further properties *)

(** ** Attaching and detaching, continued *)

Lemma list_remove_first (x : ref) (l1 l2 : list ref) :
  x ∉ l1 → list_remove x (l1 ++ x :: l2) = Returns (l1 ++ l2).
Proof.
  induction l1 as [|y l1 IH]; intros Hnin; simpl.
  - by rewrite decide_True.
  - apply not_elem_of_cons in Hnin as [Hne Hnin].
    rewrite decide_False by congruence. by rewrite IH.
Qed.

Lemma set_base_price_same {R} (m : Machine R) : set_base_price m (base_price m) = m.
Proof. by destruct m. Qed.

Lemma copies_app (g : ref) (l1 l2 : list ref) :
  copies g (l1 ++ l2) = copies g l1 + copies g l2.
Proof. unfold copies. by rewrite filter_app, length_app. Qed.

Lemma copies_cons (g x : ref) (l : list ref) :
  copies g (x :: l) = (if decide (g = x) then 1 else 0) + copies g l.
Proof.
  unfold copies. rewrite filter_cons.
  destruct (decide (x = g)), (decide (g = x)); simpl; congruence.
Qed.

Lemma copies_not_elem_of (g : ref) (l : list ref) : g ∉ l → copies g l = 0.
Proof.
  induction l as [|x l IH]; [done|]. intros [Hne Hnin]%not_elem_of_cons.
  rewrite copies_cons, decide_False, IH by done. done.
Qed.

(** X1: attaching a game and detaching it at once.  When the game was not
    attached before, the list of games is as it was and [base_price] is
    [(base_price + price) - price]; when it was, [list.remove] takes out the
    earlier copy, so the game moves to the end of the list. *)
Theorem add_then_remove {R : Type} `{Number R} (G : games R) (m : Machine R) (g : ref) :
  let paid := num_sub (num_add (base_price m) (price (G g))) (price (G g)) in
  (g ∉ videogames m →
     remove_videogame G (add_videogame G m g) g = Returns (set_base_price m paid)) ∧
  (∀ l1 l2, videogames m = l1 ++ (g :: l2) → g ∉ l1 →
     remove_videogame G (add_videogame G m g) g =
       Returns (set_base_price (set_videogames m (l1 ++ l2 ++ [g])) paid)).
Proof.
  intros paid. split.
  - intros Hnin. unfold remove_videogame, list_contains. simpl.
    rewrite bool_decide_eq_true_2 by (apply elem_of_app; right; apply list_elem_of_here).
    rewrite list_remove_first by done. simpl. rewrite app_nil_r. by destruct m.
  - intros l1 l2 El Hnin. unfold remove_videogame, list_contains. simpl.
    rewrite bool_decide_eq_true_2 by (apply elem_of_app; right; apply list_elem_of_here).
    rewrite El, <- app_assoc. simpl. rewrite list_remove_first by done. done.
Qed.

Lemma add_then_remove_witness :
  remove_videogame sample_games (add_videogame sample_games sample_machine 1) 1 =
    Returns (set_base_price sample_machine 4000.0000000000005%float) ∧
  remove_videogame sample_games
      (add_videogame sample_games (set_videogames sample_machine [1; 3]) 1) 1 =
    Returns (set_base_price (set_videogames sample_machine [3; 1]) 4000.0000000000005%float).
Proof.
  split.
  - destruct (add_then_remove sample_games sample_machine 1) as [Hfresh _].
    apply Hfresh, not_elem_of_nil.
  - destruct (add_then_remove sample_games (set_videogames sample_machine [1; 3]) 1)
      as [_ Hdup].
    apply (Hdup [] [3]); [done|apply not_elem_of_nil].
Defined.

(** X2: with exact arithmetic, attaching a game that was not attached and
    detaching it again gives back the machine, field for field. *)
Theorem add_then_remove_exact {R : Type} `{ExactNumber R} (G : games R)
    (m : Machine R) (g : ref) :
  g ∉ videogames m → remove_videogame G (add_videogame G m g) g = Returns m.
Proof.
  intros Hnin. unfold remove_videogame, list_contains. simpl.
  rewrite bool_decide_eq_true_2 by (apply elem_of_app; right; apply list_elem_of_here).
  rewrite list_remove_first by done. simpl. rewrite app_nil_r, num_sub_add. by destruct m.
Qed.

Lemma add_then_remove_exact_witness :
  remove_videogame int_games (add_videogame int_games int_machine 4) 4 = Returns int_machine.
Proof. apply add_then_remove_exact. apply not_elem_of_nil. Defined.

(** X3: [add_videogame] adds one copy of the game and [remove_videogame]
    takes one copy away if there is one; the number of copies of every other
    game stays the same.  A game attached twice has to be detached twice. *)
Theorem attach_detach_copies {R : Type} `{Number R} (G : games R)
    (m : Machine R) (g : ref) :
  (∀ h, copies h (videogames (add_videogame G m g)) =
          copies h (videogames m) + (if decide (h = g) then 1 else 0)) ∧
  ∃ m', remove_videogame G m g = Returns m' ∧
    ∀ h, copies h (videogames m') =
           copies h (videogames m) - (if decide (h = g) then 1 else 0).
Proof.
  split.
  - intros h. simpl. rewrite copies_app, copies_cons.
    destruct (decide (h = g)); unfold copies; simpl; lia.
  - destruct (decide (g ∈ videogames m)) as [Hin|Hnin].
    + destruct (remove_videogame_present G m g Hin) as (l1 & l2 & El & Hl1 & ->).
      eexists; split; [done|]. intros h. simpl.
      rewrite El, !copies_app, copies_cons.
      destruct (decide (h = g)); lia.
    + rewrite remove_videogame_absent by done. eexists; split; [done|].
      intros h. destruct (decide (h = g)) as [->|]; [|lia].
      rewrite copies_not_elem_of by done. done.
Qed.

(** ** Floats: order, NaN and infinity *)

Lemma SFcompare_refl (x : spec_float) : x ≠ S754_nan → SFcompare x x = Some Eq.
Proof.
  destruct x as [[]|[]| |[] m e]; simpl; try done;
    intros _; rewrite Z.compare_refl, ?Pos.compare_cont_refl; done.
Qed.

Lemma is_nan_Prim2SF (x : float) : PrimFloat.is_nan x = true ↔ Prim2SF x = S754_nan.
Proof.
  unfold PrimFloat.is_nan. rewrite FloatAxioms.eqb_spec. unfold SFeqb. split.
  - intros E. destruct (Prim2SF x) as [s|s| |s m e] eqn:Ex; [| |done|];
      by rewrite SFcompare_refl in E.
  - by intros ->.
Qed.

Lemma SFleb_trans (a b c : spec_float) :
  SFleb a b = true → SFleb b c = true → SFleb a c = true.
Proof.
  unfold SFleb.
  destruct a as [[]|[]| |[] ma ea], b as [[]|[]| |[] mb eb],
           c as [[]|[]| |[] mc ec];
    simpl; try done;
    destruct (Z.compare_spec ea eb), (Z.compare_spec eb ec), (Z.compare_spec ea ec);
    simpl; try done; try lia;
    subst;
    rewrite ?Pos.compare_cont_spec; simpl;
    destruct (Pos.compare_spec ma mb), (Pos.compare_spec mb mc),
             (Pos.compare_spec ma mc);
    simpl; try done; lia.
Qed.

Lemma float_leb_trans (a b c : float) :
  PrimFloat.leb a b = true → PrimFloat.leb b c = true → PrimFloat.leb a c = true.
Proof. rewrite !leb_spec. apply SFleb_trans. Qed.

Lemma float_leb_nan_l (x y : float) :
  PrimFloat.is_nan x = true → PrimFloat.leb x y = false.
Proof. rewrite is_nan_Prim2SF, leb_spec. by intros ->. Qed.

Lemma float_leb_nan_r (x y : float) :
  PrimFloat.is_nan y = true → PrimFloat.leb x y = false.
Proof.
  rewrite is_nan_Prim2SF, leb_spec. intros ->. unfold SFleb.
  by destruct (Prim2SF x).
Qed.

Lemma float_add_nan_l (x y : float) :
  PrimFloat.is_nan x = true → PrimFloat.is_nan (x + y) = true.
Proof. rewrite !is_nan_Prim2SF, add_spec. by intros ->. Qed.

Lemma float_add_nan_r (x y : float) :
  PrimFloat.is_nan y = true → PrimFloat.is_nan (x + y) = true.
Proof.
  rewrite !is_nan_Prim2SF, add_spec. intros ->. unfold SF64add, SFadd.
  by destruct (Prim2SF x).
Qed.

Lemma float_sub_nan_l (x y : float) :
  PrimFloat.is_nan x = true → PrimFloat.is_nan (x - y) = true.
Proof. rewrite !is_nan_Prim2SF, sub_spec. by intros ->. Qed.

Lemma float_sub_nan_r (x y : float) :
  PrimFloat.is_nan y = true → PrimFloat.is_nan (x - y) = true.
Proof.
  rewrite !is_nan_Prim2SF, sub_spec. intros ->. unfold SF64sub, SFsub.
  by destruct (Prim2SF x).
Qed.

(** [(b + p) - p] with an infinite [p] is NaN, whatever [b] is. *)
Lemma float_add_sub_infinity (b p : float) :
  (∃ s, Prim2SF p = S754_infinity s) → PrimFloat.is_nan (b + p - p) = true.
Proof.
  intros [s Hp]. rewrite is_nan_Prim2SF, sub_spec, add_spec, Hp.
  unfold SF64sub, SF64add, SFsub, SFadd.
  by destruct (Prim2SF b) as [[]|[]| |[] m e], s.
Qed.

Lemma between_nan (lo x hi : float) :
  PrimFloat.is_nan lo = true ∨ PrimFloat.is_nan x = true ∨ PrimFloat.is_nan hi = true →
  between lo x hi = false.
Proof.
  unfold between. simpl. intros [H|[H|H]].
  - by rewrite float_leb_nan_l.
  - by rewrite float_leb_nan_r.
  - rewrite (float_leb_nan_r x hi) by done. apply andb_false_r.
Qed.

(** ** Catalog searches, continued *)

Lemma filter_singleton {A} (P : A → Prop) `{∀ x, Decision (P x)} (x : A) :
  filter P [x] = if decide (P x) then [x] else [].
Proof. rewrite filter_cons. by destruct (decide (P x)). Qed.

Lemma filter_sublist_mono {A} (P Q : A → Prop) `{∀ x, Decision (P x)}
    `{∀ x, Decision (Q x)} (l : list A) :
  (∀ x, P x → Q x) → filter P l `sublist_of` filter Q l.
Proof.
  intros HPQ. induction l as [|x l IH]; [done|]. rewrite !filter_cons.
  destruct (decide (P x)) as [HP|HP].
  - rewrite decide_True by auto. by apply sublist_skip.
  - destruct (decide (Q x)); [by apply sublist_cons|done].
Qed.

Lemma search_by_videogame_name_elem_of {R} (str_lower : string → string) (G : games R)
    (M : machine_store R) (self : CatalogManager) (wanted : string) (m : ref) :
  m ∈ search_by_videogame_name str_lower G M self wanted ↔
  m ∈ machines self ∧
  ∃ v, v ∈ videogames (M m) ∧ str_lower (name (G v)) = str_lower wanted.
Proof.
  unfold search_by_videogame_name. rewrite list_elem_of_filter, existsb_exists.
  setoid_rewrite bool_decide_eq_true. setoid_rewrite <- list_elem_of_In. tauto.
Qed.

(** X5: registering a machine puts it at the end of the result of each of
    the six searches when it matches, and leaves the result as it was when it
    does not: earlier entries keep their places.  A material or a game name
    matches when [str.lower] gives the same text on both sides, whatever
    [str.lower] does to the characters. *)
Theorem register_then_search {R : Type} `{Number R} (str_lower : string → string)
    (G : games R) (M : machine_store R) (self : CatalogManager) (r : ref) :
  (∀ count, search_by_videogame_count M (register_machine self r) count =
     search_by_videogame_count M self count ++
     (if decide (Z.of_nat (length (videogames (M r))) = count) then [r] else [])) ∧
  (∀ wanted, search_by_material str_lower M (register_machine self r) wanted =
     search_by_material str_lower M self wanted ++
     (if decide (str_lower (material (M r)) = str_lower wanted) then [r] else [])) ∧
  (∀ wanted, search_by_videogame_name str_lower G M (register_machine self r) wanted =
     search_by_videogame_name str_lower G M self wanted ++
     (if existsb (λ v, bool_decide (str_lower (name (G v)) = str_lower wanted))
           (videogames (M r))
      then [r] else [])) ∧
  (∀ lo hi, search_by_price_range M (register_machine self r) lo hi =
     search_by_price_range M self lo hi ++
     (if between lo (calculate_total_price (M r)) hi then [r] else [])) ∧
  (∀ lo hi, search_by_weight_range M (register_machine self r) lo hi =
     search_by_weight_range M self lo hi ++
     (if between lo (weight (M r)) hi then [r] else [])) ∧
  (∀ lo hi, search_by_power_consumption_range M (register_machine self r) lo hi =
     search_by_power_consumption_range M self lo hi ++
     (if between lo (power_consumption (M r)) hi then [r] else [])).
Proof.
  unfold search_by_videogame_count, search_by_material, search_by_videogame_name,
    search_by_price_range, search_by_weight_range, search_by_power_consumption_range,
    register_machine; simpl.
  repeat split; intros; rewrite filter_app, filter_singleton; f_equal;
    try done; case_decide as E; try done.
  all: try (by rewrite E). all: by apply not_true_is_false in E; rewrite E.
Qed.

(** X4: two queries give the same [search_by_material] result on every
    catalog exactly when [str.lower] gives the same text for both, whatever
    [str.lower] does to the characters. *)
Theorem search_by_material_same_results (str_lower : string → string)
    (wanted wanted' : string) :
  (∀ (M : machine_store float) (self : CatalogManager),
     search_by_material str_lower M self wanted' =
     search_by_material str_lower M self wanted) ↔
  str_lower wanted' = str_lower wanted.
Proof.
  split.
  - intros Hsame.
    pose (M := λ _ : ref, Machine_init wanted {| d_length := 1; d_width := 1; d_height := 1 |}
                 1%float 1%float 1 1 1%float "").
    specialize (Hsame M {| machines := [0] |}).
    unfold search_by_material in Hsame. simpl in Hsame.
    rewrite !filter_singleton in Hsame. simpl in Hsame.
    rewrite (decide_True (P := str_lower wanted = str_lower wanted)) in Hsame by done.
    by destruct (decide (str_lower wanted = str_lower wanted')).
  - intros E M self. unfold search_by_material. by rewrite E.
Qed.

(** X6: widening a range never loses a machine: with [lo' <= lo] and
    [hi <= hi'], the result for [lo..hi] is a sublist of the result for
    [lo'..hi'], for each of the three range searches. *)
Theorem range_search_widening (M : machine_store float) (self : CatalogManager)
    (lo hi lo' hi' : float) :
  PrimFloat.leb lo' lo = true → PrimFloat.leb hi hi' = true →
  search_by_price_range M self lo hi `sublist_of` search_by_price_range M self lo' hi' ∧
  search_by_weight_range M self lo hi `sublist_of` search_by_weight_range M self lo' hi' ∧
  search_by_power_consumption_range M self lo hi `sublist_of`
    search_by_power_consumption_range M self lo' hi'.
Proof.
  intros Hlo Hhi.
  assert (∀ x, between lo x hi = true → between lo' x hi' = true) as Hwide.
  { intros x [H1 H2]%between_true. apply between_true.
    split; eauto using float_leb_trans. }
  split; [|split]; apply filter_sublist_mono; intros m; apply Hwide.
Qed.

Lemma range_search_widening_witness :
  search_by_weight_range sample_store sample_catalog 150%float 200%float `sublist_of`
  search_by_weight_range sample_store sample_catalog 100%float 250%float.
Proof.
  by apply (range_search_widening sample_store sample_catalog
              150%float 200%float 100%float 250%float).
Defined.

(** X7: a range search with a NaN bound returns the empty list, and a
    machine whose field is NaN is in no range at all. *)
Theorem range_search_nan (M : machine_store float) (self : CatalogManager)
    (lo hi : float) :
  (PrimFloat.is_nan lo = true ∨ PrimFloat.is_nan hi = true →
     search_by_price_range M self lo hi = [] ∧
     search_by_weight_range M self lo hi = [] ∧
     search_by_power_consumption_range M self lo hi = []) ∧
  (∀ m,
     (PrimFloat.is_nan (calculate_total_price (M m)) = true →
        m ∉ search_by_price_range M self lo hi) ∧
     (PrimFloat.is_nan (weight (M m)) = true →
        m ∉ search_by_weight_range M self lo hi) ∧
     (PrimFloat.is_nan (power_consumption (M m)) = true →
        m ∉ search_by_power_consumption_range M self lo hi)).
Proof.
  split.
  - intros Hnan.
    assert (∀ x, between lo x hi = false) as Hnone.
    { intros x. apply between_nan. tauto. }
    split; [|split]; apply filter_nil_Forall, Forall_forall; intros m _;
      by rewrite Hnone.
  - intros m. split; [|split]; intros Hnan [Hin _]%list_elem_of_filter;
      by rewrite between_nan in Hin by auto.
Qed.

Lemma range_search_nan_witness :
  search_by_price_range sample_store sample_catalog PrimFloat.nan 7000%float = [] ∧
  search_by_weight_range sample_store sample_catalog 0%float PrimFloat.nan = [].
Proof.
  split.
  - destruct (range_search_nan sample_store sample_catalog PrimFloat.nan 7000%float)
      as [Hnone _].
    apply Hnone. by left.
  - destruct (range_search_nan sample_store sample_catalog 0%float PrimFloat.nan)
      as [Hnone _].
    apply Hnone. by right.
Defined.

(** ** Prices that are not numbers *)

Lemma perform_nan (G : games float) (m : Machine float) (c : call) :
  PrimFloat.is_nan (base_price m) = true →
  ∃ m', perform G m c = Returns m' ∧ PrimFloat.is_nan (base_price m') = true.
Proof.
  intros Hnan. destruct c as [g|g]; simpl.
  - eexists; split; [done|]. simpl. by apply float_add_nan_l.
  - destruct (decide (g ∈ videogames m)) as [Hin|Hnin].
    + destruct (remove_videogame_present G m g Hin) as (l1 & l2 & _ & _ & ->).
      eexists; split; [done|]. simpl. by apply float_sub_nan_l.
    + rewrite remove_videogame_absent by done. by eexists.
Qed.

(** X8: a game with a NaN price makes the total NaN, and once
    [base_price] is NaN no script of [add_videogame]/[remove_videogame] calls
    brings a number back: detaching the game does not undo it. *)
Theorem nan_total_is_permanent (G : games float) (m : Machine float) (cs : list call) :
  (∀ g, PrimFloat.is_nan (price (G g)) = true →
     PrimFloat.is_nan (calculate_total_price (add_videogame G m g)) = true) ∧
  (PrimFloat.is_nan (base_price m) = true →
     ∃ m', perform_all G m cs = Returns m' ∧
       PrimFloat.is_nan (calculate_total_price m') = true).
Proof.
  split.
  - intros g Hg. simpl. by apply float_add_nan_r.
  - revert m. induction cs as [|c cs IH]; intros m Hnan; [by eexists|].
    simpl. destruct (perform_nan G m c Hnan) as (m' & -> & Hm'). by apply IH.
Qed.

Lemma nan_total_is_permanent_witness :
  ∃ m', perform_all nan_games (add_videogame nan_games sample_machine 0)
          [Remove 0; Add 2; Remove 2] = Returns m' ∧
    videogames m' = [] ∧
    PrimFloat.is_nan (calculate_total_price m') = true.
Proof.
  destruct (nan_total_is_permanent nan_games sample_machine []) as [Hadd _].
  destruct (nan_total_is_permanent nan_games (add_videogame nan_games sample_machine 0)
              [Remove 0; Add 2; Remove 2]) as [_ Hkeep].
  destruct Hkeep as (m' & E & Hnan); [by apply Hadd|].
  exists m'. split; [done|]. split; [|done].
  vm_compute in E. by injection E as <-.
Defined.

Lemma is_infinity_Prim2SF (p : float) :
  PrimFloat.is_infinity p = true → ∃ s, Prim2SF p = S754_infinity s.
Proof.
  unfold PrimFloat.is_infinity. rewrite FloatAxioms.eqb_spec, abs_spec.
  change (Prim2SF infinity) with (S754_infinity false).
  destruct (Prim2SF p) as [[]|s| |[] m e]; try done. by exists s.
Qed.

(** X9: attaching a game with an infinite price and detaching it again
    leaves the total NaN, whatever the machine cost before. *)
Theorem infinite_price_round_trip (G : games float) (m : Machine float) (g : ref) :
  PrimFloat.is_infinity (price (G g)) = true →
  ∃ m', remove_videogame G (add_videogame G m g) g = Returns m' ∧
    PrimFloat.is_nan (calculate_total_price m') = true.
Proof.
  intros Hinf%is_infinity_Prim2SF.
  assert (g ∈ videogames (add_videogame G m g)) as Hin.
  { simpl. apply elem_of_app. right. apply list_elem_of_here. }
  destruct (remove_videogame_present G _ g Hin) as (l1 & l2 & _ & _ & ->).
  eexists; split; [done|]. simpl. by apply float_add_sub_infinity.
Qed.

Lemma infinite_price_round_trip_witness :
  ∃ m', remove_videogame nan_games (add_videogame nan_games sample_machine 1) 1 =
          Returns m' ∧
    PrimFloat.is_nan (calculate_total_price m') = true.
Proof. by apply infinite_price_round_trip. Defined.

(** ** A machine seen through the catalog *)

Lemma copies_filter_True (P : ref → Prop) `{∀ x, Decision (P x)} (r : ref) (l : list ref) :
  P r → copies r (filter P l) = copies r l.
Proof.
  intros HP. induction l as [|x l IH]; [done|]. rewrite filter_cons.
  destruct (decide (P x)) as [|Hx].
  - by rewrite !copies_cons, IH.
  - rewrite copies_cons, IH, decide_False; [done|]. by intros ->.
Qed.

(** X10: [add_videogame] through one reference is seen through every catalog
    entry of that machine: all its entries are found under every query that
    [str.lower] maps to the same text as the game's name, and under the new
    game count, none under the old count; no other machine changes, and no
    machine drops out of a search by name.  This holds whatever [str.lower]
    does to the characters. *)
Theorem add_videogame_at_visible {R : Type} `{Number R} (str_lower : string → string)
    (G : games R) (M : machine_store R) (self : CatalogManager) (r g : ref) :
  let M' := add_videogame_at G M r g in
  let n := Z.of_nat (length (videogames (M r))) in
  (∀ r', r' ≠ r → M' r' = M r') ∧
  (∀ wanted, search_by_videogame_name str_lower G M self wanted `sublist_of`
               search_by_videogame_name str_lower G M' self wanted) ∧
  (∀ wanted, str_lower wanted = str_lower (name (G g)) →
     copies r (search_by_videogame_name str_lower G M' self wanted) =
     copies r (machines self)) ∧
  copies r (search_by_videogame_count M' self (n + 1)) = copies r (machines self) ∧
  r ∉ search_by_videogame_count M' self n.
Proof.
  intros M' n.
  assert (M' r = add_videogame G (M r) g) as Er.
  { unfold M', add_videogame_at, store_set. by rewrite decide_True. }
  assert (∀ r', r' ≠ r → M' r' = M r') as Hother.
  { intros r' Hne. unfold M', add_videogame_at, store_set. by rewrite decide_False. }
  split; [done|]. split; [|split; [|split]].
  - intros wanted. apply filter_sublist_mono. intros m.
    destruct (decide (m = r)) as [->|Hne]; [|by rewrite Hother].
    rewrite Er. simpl. rewrite existsb_app. intros ->. done.
  - intros wanted Hw. apply copies_filter_True.
    rewrite Er. simpl. rewrite existsb_app. simpl.
    rewrite (bool_decide_eq_true_2 _ (eq_sym Hw)). by rewrite orb_true_r.
  - apply copies_filter_True. rewrite Er. simpl. rewrite length_app. simpl. lia.
  - intros [Hlen _]%list_elem_of_filter. rewrite Er in Hlen. simpl in Hlen.
    rewrite length_app in Hlen. simpl in Hlen. lia.
Qed.

(** ** Factory, continued *)

(** What the factory does once the machine type is found. *)
Lemma create_machine_found (machine_type material color : string) machine_creator :
  MachineFactory.predefined_machines !! machine_type = Some machine_creator →
  MachineFactory.create_machine machine_type material color =
    Some (match MachineFactory.material_decorators !! lower material with
          | Some decorator =>
              apply_in_order (adjustments decorator)
                (Template.create_machine machine_creator material color)
          | None => Template.create_machine machine_creator material color
          end).
Proof.
  intros Hty. unfold MachineFactory.create_machine. rewrite Hty.
  by destruct (MachineFactory.material_decorators !! lower material).
Qed.

(** X11: a machine the factory returns carries the material and colour
    strings as given (not lower-cased), has no games, and has the dimensions,
    memory, processors and extra attributes of its template, decorated or
    not. *)
Theorem create_machine_description (machine_type mat col : string) (m : Machine float) :
  MachineFactory.create_machine machine_type mat col = Some m →
  material m = mat ∧ color m = col ∧ videogames m = [] ∧
  ∃ machine_creator,
    MachineFactory.predefined_machines !! machine_type = Some machine_creator ∧
    same_description (Template.create_machine machine_creator mat col) m.
Proof.
  intros E.
  destruct (MachineFactory.predefined_machines !! machine_type) as [t|] eqn:Hty.
  - rewrite (create_machine_found _ _ _ t Hty) in E. injection E as <-.
    destruct (MachineFactory.material_decorators !! lower mat) as [[]|];
      destruct t; do 3 (split; [done|]); eexists; (split; [done|]);
      by repeat split.
  - unfold MachineFactory.create_machine in E. by rewrite Hty in E.
Qed.

Lemma create_machine_description_witness :
  ∃ m, MachineFactory.create_machine "VirtualReality" "Carbon Fiber" "White" = Some m ∧
    material m = "Carbon Fiber"%string ∧ color m = "White"%string ∧
    videogames m = [].
Proof.
  eexists. split; [reflexivity|].
  edestruct (create_machine_description "VirtualReality" "Carbon Fiber" "White")
    as (Hm & Hc & Hv & _); [reflexivity|].
  by rewrite Hm, Hc, Hv.
Defined.



(** X13: [create_machine] returns a machine exactly when the type is one of
    the five keys; the material never makes it fail. *)
Theorem create_machine_Some_iff (machine_type mat col : string) :
  is_Some (MachineFactory.create_machine machine_type mat col) ↔
  machine_type ∈ machine_types.
Proof.
  split; [|apply create_machine_known_type].
  intros [m E]. destruct (decide (machine_type ∈ machine_types)) as [|Hnin]; [done|].
  unfold MachineFactory.create_machine in E.
  by rewrite predefined_machines_None in E.
Qed.

(** X14: for every machine type and colour, and every spelling of the
    materials, the price rises from wood to undecorated to aluminium to
    carbon fiber, the weight falls along the same order reversed (carbon
    fiber lightest, wood heaviest), and the power consumption is lowest with
    carbon fiber, equal for aluminium and undecorated, highest with wood. *)
Theorem material_ranking (machine_type wood aluminium carbon other col : string) :
  machine_type ∈ machine_types →
  lower wood = "wood"%string → lower aluminium = "aluminium"%string →
  lower carbon = "carbon fiber"%string → lower other ∉ known_materials →
  ∃ mw ma mc mo,
    MachineFactory.create_machine machine_type wood col = Some mw ∧
    MachineFactory.create_machine machine_type aluminium col = Some ma ∧
    MachineFactory.create_machine machine_type carbon col = Some mc ∧
    MachineFactory.create_machine machine_type other col = Some mo ∧
    (base_price mw <? base_price mo)%float = true ∧
    (base_price mo <? base_price ma)%float = true ∧
    (base_price ma <? base_price mc)%float = true ∧
    (weight mc <? weight ma)%float = true ∧
    (weight ma <? weight mo)%float = true ∧
    (weight mo <? weight mw)%float = true ∧
    (power_consumption mc <? power_consumption mo)%float = true ∧
    power_consumption ma = power_consumption mo ∧
    (power_consumption mo <? power_consumption mw)%float = true.
Proof.
  intros Hty Hw Ha Hc Ho.
  assert (∃ t, MachineFactory.predefined_machines !! machine_type = Some t) as [t Ht].
  { unfold machine_types in Hty. rewrite !elem_of_cons, elem_of_nil in Hty.
    destruct Hty as [->|[->|[->|[->|[->|[]]]]]]; by eexists. }
  do 4 eexists.
  rewrite !(create_machine_found _ _ _ t Ht), Hw, Ha, Hc,
    (material_decorators_None _ Ho).
  repeat (split; [reflexivity|]).
  by destruct t.
Qed.

(** ** The command line interface: what a command may change *)

Section Behaves.
Context {I : relation World} {E : cli_exception → Prop}.

Lemma behaves_ret {A} `{!Reflexive I} (a : A) : behaves I E (mret a).
Proof. intros w. simpl. split; [reflexivity|done]. Qed.

Lemma behaves_raise {A} `{!Reflexive I} (e : cli_exception) :
  E e → behaves I E (raise (A := A) e).
Proof. intros He w. simpl. split; [reflexivity|done]. Qed.

Lemma behaves_bind {A B} `{!Transitive I} (c : cli A) (k : A → cli B) :
  behaves I E c → (∀ a, behaves I E (k a)) → behaves I E (c ≫= k).
Proof.
  intros Hc Hk w. unfold mbind, cli_bind. destruct (Hc w) as [HI HE].
  destruct (c w) as [[a| |] w']; simpl in *; [|done..].
  destruct (Hk a w') as [HI' HE']. split; [by etrans|done].
Qed.

(** A command that leaves the objects alone can go in front of any other. *)
Lemma behaves_bind_frame {A B} (c : cli A) (k : A → cli B) :
  (∀ w1 w2, same_objects w1 w2 → I w1 w2) →
  (∀ w1 w2 w3, same_objects w1 w2 → I w2 w3 → I w1 w3) →
  behaves same_objects E c → (∀ a, behaves I E (k a)) → behaves I E (c ≫= k).
Proof.
  intros Hsub Hpre Hc Hk w. unfold mbind, cli_bind. destruct (Hc w) as [HI HE].
  destruct (c w) as [[a| |] w']; simpl in *; [|by auto..].
  destruct (Hk a w') as [HI' HE']. split; [by eapply Hpre|done].
Qed.

Lemma behaves_weaken {A} (I' : relation World) (E' : cli_exception → Prop) (c : cli A) :
  (∀ w1 w2, I' w1 w2 → I w1 w2) → (∀ e, E' e → E e) →
  behaves I' E' c → behaves I E c.
Proof.
  intros HI HE Hc w. destruct (Hc w) as [H1 H2]. split; [by apply HI|].
  destruct (c w).1; auto.
Qed.
End Behaves.

#[export] Instance same_objects_preorder : PreOrder same_objects.
Proof.
  split.
  - by intros w.
  - unfold same_objects. intros w1 w2 w3 (? & ? & ? & ?) (? & ? & ? & ?).
    repeat split; congruence.
Qed.

#[export] Instance never_prints_preorder text : PreOrder (never_prints text).
Proof.
  split.
  - intros w. exists []. split; [by rewrite app_nil_r|apply not_elem_of_nil].
  - unfold never_prints. intros w1 w2 w3 (o1 & Ho1 & Hn1) (o2 & Ho2 & Hn2).
    exists (o1 ++ o2). split; [by rewrite Ho2, Ho1, app_assoc|].
    rewrite elem_of_app. tauto.
Qed.

(** Leaves that only move the terminal. *)
Lemma print_behaves E text : behaves same_objects E (print text).
Proof. by intros w. Qed.

Lemma input_behaves prompt : behaves same_objects input_error (input prompt).
Proof.
  intros w. unfold input. simpl. destruct (w_stdin w); simpl; [|done].
  split; [done|by right].
Qed.

Lemma get_behaves {A} E (f : World → A) : behaves same_objects E (λ w, (Done (f w), w)).
Proof. by intros w. Qed.

Lemma print_each_behaves E lines : behaves same_objects E (print_each lines).
Proof.
  induction lines as [|l ls IH]; simpl.
  - apply behaves_ret.
  - apply behaves_bind; [apply print_behaves|done].
Qed.

Lemma parse_int_behaves int_of text :
  behaves same_objects input_error (CLI.parse_int int_of text).
Proof.
  unfold CLI.parse_int. destruct (int_of text).
  - apply behaves_ret.
  - apply behaves_raise. by left.
Qed.

Lemma parse_float_behaves float_of text :
  behaves same_objects input_error (CLI.parse_float float_of text).
Proof.
  unfold CLI.parse_float. destruct (float_of text).
  - apply behaves_ret.
  - apply behaves_raise. by left.
Qed.

(** Inside its bounds check, [l[i]] yields an entry of [l]. *)
Lemma getitem_in_range {A} (l : list A) (i : Z) :
  CLI.out_of_range i l = false →
  ∃ x, l !! Z.to_nat i = Some x ∧ getitem l i = mret x.
Proof.
  unfold CLI.out_of_range. intros [Hlo Hhi]%orb_false_elim.
  apply Z.ltb_ge in Hlo. rewrite Z.geb_leb in Hhi. apply Z.leb_gt in Hhi.
  destruct (lookup_lt_is_Some_2 l (Z.to_nat i)) as [x Hx]; [lia|].
  exists x. split; [done|]. unfold getitem.
  by rewrite !(proj2 (Z.ltb_ge i 0)), Hx by done.
Qed.

(** Walking through a command: binds are split, branches are taken one by
    one (keeping what the test says), the leaves are left to [leaf]. *)
Ltac behaves_walk leaf :=
  repeat first
    [ leaf
    | apply behaves_ret
    | apply behaves_bind; [| intros ?]
    | match goal with
      | |- behaves _ _ (if ?b then _ else _) => destruct b eqn:?
      | |- behaves _ _ (match ?x with _ => _ end) => destruct x eqn:?
      | |- behaves _ _ (let _ := _ in _) => cbv zeta
      end ].

Ltac terminal_leaf :=
  first [ apply print_behaves | apply input_behaves | apply get_behaves
        | apply print_each_behaves | apply parse_int_behaves
        | apply parse_float_behaves ].

Section Frames.
Variable int_of : string → option Z.
Variable float_of : string → option float.
Variable format_2f : float → string.
Variable str_lower : string → string.

Lemma show_results_behaves results :
  behaves same_objects input_error (CLI.show_results format_2f results).
Proof.
  unfold CLI.show_results, get_machines. destruct results; behaves_walk terminal_leaf.
Qed.

Lemma search_machines_behaves :
  behaves same_objects input_error (CLI.search_machines int_of float_of format_2f str_lower).
Proof.
  unfold CLI.search_machines, get_catalog, get_machines, get_games.
  behaves_walk ltac:(first [terminal_leaf | apply show_results_behaves]).
Qed.

Lemma list_all_machines_behaves :
  behaves same_objects input_error (CLI.list_all_machines format_2f).
Proof.
  unfold CLI.list_all_machines, get_catalog, get_machines.
  behaves_walk terminal_leaf.
Qed.

Lemma print_menu_behaves : behaves same_objects input_error CLI.print_menu.
Proof. unfold CLI.print_menu. behaves_walk terminal_leaf. Qed.
End Frames.

(** X21: [search_machines] and [list_all_machines] leave every game, every
    machine and the catalog as they were, whatever is typed, and end normally
    or with the [ValueError]/[EOFError] of a failed read. *)
Theorem queries_read_only (int_of : string → option Z) (float_of : string → option float)
    (format_2f : float → string) (str_lower : string → string) :
  behaves same_objects input_error
    (CLI.search_machines int_of float_of format_2f str_lower) ∧
  behaves same_objects input_error (CLI.list_all_machines format_2f).
Proof. split; [apply search_machines_behaves|apply list_all_machines_behaves]. Qed.

(** ** Creating a machine from the menu *)

Lemma behaves_mret_bind {A B} (I : relation World) E (x : A) (k : A → cli B) :
  behaves I E (k x) → behaves I E (mret x ≫= k).
Proof. intros Hk. exact Hk. Qed.

Lemma registers_new_machine_frame w1 w2 w3 :
  same_objects w1 w2 → registers_new_machine w2 w3 → registers_new_machine w1 w3.
Proof.
  intros H12 [Hsame|(ty & mat & col & m & ? & ? & ? & ? & ? & ? & ?)].
  - left. by etrans.
  - right. destruct H12 as (HG & HM & Hn & Hc).
    exists ty, mat, col, m. rewrite <- HG, <- HM, <- Hn, <- Hc. done.
Qed.

Section CreateMachine.
Variable int_of : string → option Z.

Lemma create_machine_registers :
  behaves registers_new_machine input_error (CLI.create_machine int_of).
Proof.
  pose proof registers_new_machine_frame as Hframe.
  assert (∀ w1 w2, same_objects w1 w2 → registers_new_machine w1 w2) as Hsub
    by (intros; by left).
  unfold CLI.create_machine.
  repeat first
    [ apply behaves_bind_frame; [exact Hsub|exact Hframe|terminal_leaf|intros ?]
    | progress cbv zeta
    | match goal with
      | |- behaves _ _ (if ?b then _ else _) => destruct b eqn:?
      end
    | eapply behaves_weaken; [exact Hsub|done|terminal_leaf] ].
  destruct (getitem_in_range _ _ Heqb) as (ty & Hty & ->).
  destruct (getitem_in_range _ _ Heqb0) as (mat & Hmat & ->).
  apply behaves_mret_bind, behaves_mret_bind.
  apply list_elem_of_lookup_2 in Hty, Hmat.
  match goal with
  | |- behaves _ _ (match MachineFactory.create_machine _ _ ?col with _ => _ end) =>
      destruct (create_machine_known_type ty mat col Hty) as [m Hm]; rewrite Hm;
      intros w; split; [|done]; right; by exists ty, mat, col, m
  end.
Qed.
End CreateMachine.

Lemma print_never_prints E text line :
  line ≠ text → behaves (never_prints text) E (print line).
Proof.
  intros Hne w. split; [|done]. exists [Printed line]. split; [done|].
  intros [= ?]%list_elem_of_singleton. done.
Qed.

Lemma input_never_prints text prompt :
  behaves (never_prints text) input_error (input prompt).
Proof.
  intros w. unfold input. simpl.
  assert (Printed text ∉ [Prompted prompt]) as Hnot.
  { by intros [=]%list_elem_of_singleton. }
  destruct (w_stdin w); simpl; (split; [by exists [Prompted prompt]|]); [by right|done].
Qed.

Lemma print_each_never_prints E text lines :
  text ∉ lines → behaves (never_prints text) E (print_each lines).
Proof.
  induction lines as [|l ls IH]; intros Hnot; simpl.
  - apply behaves_ret.
  - apply not_elem_of_cons in Hnot as [Hne Hnot].
    apply behaves_bind; [by apply print_never_prints|auto].
Qed.

(** A world that differs only in its objects has printed nothing. *)
Lemma silent_never_prints {A} E text (c : cli A) :
  (∀ w, w_stdout (c w).2 = w_stdout w) →
  (∀ w, match (c w).1 with Done _ => True | Raised e => E e | OutOfFuel => False end) →
  behaves (never_prints text) E c.
Proof.
  intros Hout Hres w. split; [|apply Hres].
  exists []. rewrite Hout, app_nil_r. split; [done|apply not_elem_of_nil].
Qed.

Ltac string_neq := let H := fresh in intros H; vm_compute in H; discriminate H.

Ltac not_a_line :=
  let Hin := fresh "Hin" in
  intros Hin; vm_compute in Hin;
  repeat (apply elem_of_cons in Hin as [Hin|Hin]; [discriminate Hin|]);
  by apply elem_of_nil in Hin.

Section CreateMachineOutput.
Variable int_of : string → option Z.

Lemma create_machine_never_fails :
  behaves (never_prints "Failed to create machine.") input_error
    (CLI.create_machine int_of).
Proof.
  unfold CLI.create_machine, CLI.parse_int.
  repeat first
    [ lazymatch goal with
      | |- behaves _ _ (getitem _ _ ≫= _) => fail
      | |- behaves _ _ (_ ≫= _) => apply behaves_bind; [|intros ?]
      end
    | apply behaves_ret
    | apply behaves_raise; by left
    | apply input_never_prints
    | apply print_never_prints; string_neq
    | apply print_each_never_prints; not_a_line
    | progress cbv zeta
    | match goal with
      | |- behaves _ _ (if ?b then _ else _) => destruct b eqn:?
      | |- behaves _ _ (match int_of ?t with _ => _ end) => destruct (int_of t)
      end ].
  destruct (getitem_in_range _ _ Heqb) as (ty & Hty & ->).
  destruct (getitem_in_range _ _ Heqb0) as (mat & Hmat & ->).
  apply behaves_mret_bind, behaves_mret_bind.
  apply list_elem_of_lookup_2 in Hty, Hmat.
  match goal with
  | |- behaves _ _ (match MachineFactory.create_machine _ _ ?col with _ => _ end) =>
      destruct (create_machine_known_type ty mat col Hty) as [m Hm]; rewrite Hm
  end.
  apply behaves_bind; [by apply silent_never_prints|intros ?].
  apply behaves_bind; [by apply silent_never_prints|intros ?].
  apply print_never_prints. by intros [=].
Qed.
End CreateMachineOutput.

(** X16: whatever is typed, the menu's [create_machine] either leaves every
    object and the catalog as they were, or registers one new machine built by
    the factory from a listed type and a listed material; it ends normally or
    with the [ValueError]/[EOFError] of a failed read, never with an
    [IndexError]; and it never prints "Failed to create machine.", the
    factory knowing every listed type. *)
Theorem cli_create_machine_effect (int_of : string → option Z) :
  behaves registers_new_machine input_error (CLI.create_machine int_of) ∧
  behaves (never_prints "Failed to create machine.") input_error
    (CLI.create_machine int_of).
Proof. split; [apply create_machine_registers|apply create_machine_never_fails]. Qed.

(** ** Running a command on given input *)

(** Running a command step by step. *)
Lemma run_done {A B} (c : cli A) (k : A → cli B) w a w' :
  c w = (Done a, w') → (c ≫= k) w = k a w'.
Proof. intros E. unfold mbind, cli_bind. by rewrite E. Qed.

Lemma run_raised {A B} (c : cli A) (k : A → cli B) w e w' :
  c w = (Raised e, w') → (c ≫= k) w = (Raised e, w').
Proof. intros E. unfold mbind, cli_bind. by rewrite E. Qed.

Lemma print_each_run lines w :
  print_each lines w = (Done tt, fold_left (λ w line, emit (Printed line) w) lines w).
Proof.
  revert w. induction lines as [|l ls IH]; intros w; [done|]. simpl.
  by rewrite (run_done _ _ _ tt (emit (Printed l) w)).
Qed.

Lemma emit_lines_fields lines w :
  let w' := fold_left (λ w line, emit (Printed line) w) lines w in
  w_games w' = w_games w ∧ w_machines w' = w_machines w ∧ w_next w' = w_next w ∧
  w_catalog w' = w_catalog w ∧ w_stdin w' = w_stdin w ∧
  w_stdout w' = w_stdout w ++ (Printed <$> lines).
Proof.
  revert w. induction lines as [|l ls IH]; intros w; simpl.
  - by rewrite app_nil_r.
  - destruct (IH (emit (Printed l) w)) as (-> & -> & -> & -> & -> & ->). simpl.
    by rewrite <- app_assoc.
Qed.

Lemma input_run prompt w line rest :
  w_stdin w = line :: rest →
  input prompt w = (Done line, set_stdin (emit (Prompted prompt) w) rest).
Proof. intros E. unfold input. simpl. by rewrite E. Qed.

Lemma getitem_run {A} (l : list A) (i : nat) (x : A) w :
  l !! i = Some x → getitem l (Z.of_nat i + 1 - 1) w = (Done x, w).
Proof.
  intros Hx. unfold getitem.
  replace (Z.of_nat i + 1 - 1)%Z with (Z.of_nat i) by lia.
  rewrite !(proj2 (Z.ltb_ge (Z.of_nat i) 0)) by lia. by rewrite Nat2Z.id, Hx.
Qed.

Lemma in_range {A} (l : list A) (i : nat) (x : A) :
  l !! i = Some x → CLI.out_of_range (Z.of_nat i + 1 - 1) l = false.
Proof.
  intros Hx%lookup_lt_Some. unfold CLI.out_of_range.
  apply orb_false_intro; [apply Z.ltb_ge; lia|]. rewrite Z.geb_leb. apply Z.leb_gt. lia.
Qed.

(** X17: with answers [i+1], [j+1] and a colour, [create_machine] registers
    under the next free reference the machine the factory builds from the
    [i]-th listed type, the [j]-th listed material and that colour, reads
    exactly those three lines, and prints the two menus and the
    confirmation. *)
Theorem cli_create_machine_selects (int_of : string → option Z) (w : World)
    (t u col : string) (rest : list string) (i j : nat) (ty mat : string) :
  w_stdin w = t :: u :: col :: rest →
  int_of t = Some (Z.of_nat i + 1)%Z → int_of u = Some (Z.of_nat j + 1)%Z →
  CLI.machine_types !! i = Some ty → CLI.materials !! j = Some mat →
  ∃ m w',
    MachineFactory.create_machine ty mat col = Some m ∧
    CLI.create_machine int_of w = (Done tt, w') ∧
    w_games w' = w_games w ∧
    w_machines w' = store_set (w_machines w) (w_next w) m ∧
    w_next w' = S (w_next w) ∧
    w_catalog w' = register_machine (w_catalog w) (w_next w) ∧
    w_stdin w' = rest ∧
    w_stdout w' = w_stdout w ++
      [Printed (nl +:+ "Available machine types:")] ++
      (Printed <$> numbered CLI.machine_types) ++
      [Prompted "Select machine type (1-5): "] ++
      [Printed (nl +:+ "Available materials:")] ++
      (Printed <$> numbered CLI.materials) ++
      [Prompted "Select material (1-3): "] ++
      [Prompted "Enter color: "] ++
      [Printed ("Created " +:+ ty +:+ " machine with " +:+ mat +:+
                " material and " +:+ col +:+ " color.")].
Proof.
  intros Hin Ht Hu Hty Hmat.
  destruct (create_machine_known_type ty mat col) as [m Hm].
  { by apply list_elem_of_lookup_2 in Hty. }
  unfold CLI.create_machine, CLI.parse_int.
  generalize (numbered CLI.machine_types) (numbered CLI.materials).
  intros lines1 lines2.
  exists m. eexists. split; [done|].
  erewrite run_done by reflexivity.
  erewrite run_done by apply print_each_run.
  destruct (emit_lines_fields lines1
              (emit (Printed (nl +:+ "Available machine types:")) w))
    as (HG1 & HM1 & Hn1 & Hc1 & Hi1 & Ho1).
  erewrite run_done by (apply input_run; rewrite Hi1; exact Hin).
  rewrite Ht. erewrite run_done by reflexivity. cbv zeta.
  rewrite (in_range _ _ _ Hty).
  erewrite run_done by reflexivity.
  erewrite run_done by apply print_each_run.
  match goal with
  | |- context [fold_left _ lines2 ?w0] =>
      destruct (emit_lines_fields lines2 w0)
        as (HG2 & HM2 & Hn2 & Hc2 & Hi2 & Ho2)
  end.
  erewrite run_done by (apply input_run; rewrite Hi2; reflexivity).
  rewrite Hu. erewrite run_done by reflexivity. cbv zeta.
  rewrite (in_range _ _ _ Hmat).
  erewrite run_done by (apply input_run; reflexivity).
  erewrite run_done by (by apply getitem_run).
  erewrite run_done by (by apply getitem_run).
  rewrite Hm.
  erewrite run_done by reflexivity.
  erewrite run_done by reflexivity.
  split; [reflexivity|].
  cbn [w_games w_machines w_next w_catalog w_stdin w_stdout emit set_stdin set_next
       set_machines set_catalog].
  rewrite HG2, HM2, Hn2, Hc2, Ho2.
  cbn [w_games w_machines w_next w_catalog w_stdin w_stdout emit set_stdin].
  rewrite HG1, HM1, Hn1, Hc1, Ho1.
  cbn [w_games w_machines w_next w_catalog w_stdin w_stdout emit].
  do 5 (split; [reflexivity|]). rewrite <- !app_assoc. reflexivity.
Qed.

(** ** Adding a game from the menu *)

Lemma attaches_new_game_frame w1 w2 w3 :
  same_objects w1 w2 → attaches_new_game w2 w3 → attaches_new_game w1 w3.
Proof.
  intros H12 [Hsame|(machine & v & ? & ? & ? & ? & ?)].
  - left. by etrans.
  - right. destruct H12 as (HG & HM & Hn & Hc).
    exists machine, v. rewrite <- HG, <- HM, <- Hn, <- Hc. done.
Qed.

(** The catalog read at the start is the catalog of the starting world. *)
Lemma behaves_get_catalog_bind {A} (I : relation World) E (k : CatalogManager → cli A) :
  (∀ catalog, behaves (λ w w', w_catalog w = catalog → I w w') E (k catalog)) →
  behaves I E (get_catalog ≫= k).
Proof. intros Hk w. destruct (Hk (w_catalog w) w) as [HI HE]. split; [by apply HI|done]. Qed.

Section AddVideogame.
Variable int_of : string → option Z.
Variable float_of : string → option float.

Lemma add_videogame_attaches :
  behaves attaches_new_game input_error (CLI.add_videogame int_of float_of).
Proof.
  unfold CLI.add_videogame.
  apply behaves_get_catalog_bind.
  intros catalog.
  assert (∀ w1 w2, same_objects w1 w2 → w_catalog w1 = catalog → attaches_new_game w1 w2)
    as Hsub by (intros; by left).
  assert (∀ w1 w2 w3, same_objects w1 w2 →
            (w_catalog w2 = catalog → attaches_new_game w2 w3) →
            w_catalog w1 = catalog → attaches_new_game w1 w3) as Hframe.
  { intros w1 w2 w3 H12 H23 Hc. apply (attaches_new_game_frame w1 w2 w3 H12).
    apply H23. destruct H12 as (_ & _ & _ & ->). done. }
  unfold get_machines, get_games.
  repeat first
    [ lazymatch goal with
      | |- behaves _ _ (getitem _ _ ≫= _) => fail
      | |- behaves _ _ (new_game _ ≫= _) => fail
      | |- behaves _ _ (_ ≫= _) =>
          apply behaves_bind_frame; [exact Hsub|exact Hframe|terminal_leaf|intros ?]
      end
    | progress cbv zeta
    | match goal with
      | |- behaves _ _ (if ?b then _ else _) => destruct b eqn:?
      end
    | eapply behaves_weaken; [exact Hsub|done|terminal_leaf] ].
  match goal with
  | H : CLI.out_of_range _ _ = false |- _ =>
      destruct (getitem_in_range _ _ H) as (machine & Hmachine & ->)
  end.
  apply behaves_mret_bind.
  repeat first
    [ lazymatch goal with
      | |- behaves _ _ (new_game _ ≫= _) => fail
      | |- behaves _ _ (_ ≫= _) =>
          apply behaves_bind_frame; [exact Hsub|exact Hframe|terminal_leaf|intros ?]
      end
    | progress cbv zeta ].
  apply list_elem_of_lookup_2 in Hmachine.
  intros w. split; [|done]. intros <-. right. eexists machine, _.
  split; [done|]. by repeat split.
Qed.
End AddVideogame.

(** X18: whatever is typed, the menu's [add_videogame] never changes the
    catalog; it either leaves every object as it was or stores one new game
    and attaches it to one registered machine; it ends normally or with the
    [ValueError]/[EOFError] of a failed read, never with an [IndexError]. *)
Theorem cli_add_videogame_effect (int_of : string → option Z)
    (float_of : string → option float) :
  behaves attaches_new_game input_error (CLI.add_videogame int_of float_of) ∧
  behaves (λ w w', w_catalog w' = w_catalog w) input_error
    (CLI.add_videogame int_of float_of).
Proof.
  split; [apply add_videogame_attaches|].
  intros w. destruct (add_videogame_attaches int_of float_of w) as [HI HE].
  split; [|exact HE].
  by destruct HI as [(_ & _ & _ & ->)|(? & ? & _ & _ & _ & _ & ->)].
Qed.

Lemma input_run_emit prompt w lines line rest :
  w_stdin w = line :: rest →
  input prompt (fold_left (λ w line, emit (Printed line) w) lines w) =
    (Done line,
     set_stdin (emit (Prompted prompt) (fold_left (λ w line, emit (Printed line) w) lines w))
       rest).
Proof.
  intros E. apply input_run.
  destruct (emit_lines_fields lines w) as (_ & _ & _ & _ & -> & _). done.
Qed.

(** X19: with answer [i+1] and the seven game fields, [add_videogame]
    attaches to the [i]-th registered machine a new game built by
    [Videogame.__init__] from the answers, high definition exactly when the
    last answer is "y" in either case; it reads exactly those eight lines and
    ends with the confirmation. *)
Theorem cli_add_videogame_selects (int_of : string → option Z)
    (float_of : string → option float) (w : World)
    (t n sc gc cat pt yt hd : string) (rest : list string)
    (i : nat) (machine : ref) (p : float) (y : Z) :
  w_stdin w = t :: n :: sc :: gc :: cat :: pt :: yt :: hd :: rest →
  int_of t = Some (Z.of_nat i + 1)%Z →
  machines (w_catalog w) !! i = Some machine →
  float_of pt = Some p → int_of yt = Some y →
  ∃ w',
    CLI.add_videogame int_of float_of w = (Done tt, w') ∧
    w_games w' (w_next w) =
      Videogame_init n sc gc cat p y (bool_decide (lower hd = "y"%string)) ∧
    (∀ r, r ≠ w_next w → w_games w' r = w_games w r) ∧
    w_machines w' = add_videogame_at (w_games w') (w_machines w) machine (w_next w) ∧
    w_next w' = S (w_next w) ∧
    w_catalog w' = w_catalog w ∧
    w_stdin w' = rest ∧
    last (w_stdout w') = Some (Printed ("Added " +:+ n +:+ " to the selected machine.")).
Proof.
  intros Hin Ht Hi Hp Hy.
  unfold CLI.add_videogame, CLI.parse_int, CLI.parse_float.
  generalize (CLI.machine_line (w_machines w)). intros line_of.
  eexists.
  erewrite run_done by reflexivity.
  rewrite bool_decide_eq_false_2 by (by intros E; rewrite E in Hi).
  erewrite run_done by reflexivity.
  erewrite run_done by reflexivity.
  cbn [w_machines emit].
  erewrite run_done by apply print_each_run.
  erewrite run_done by (apply input_run_emit; exact Hin).
  rewrite Ht. erewrite run_done by reflexivity. cbv zeta.
  rewrite (in_range _ _ _ Hi).
  erewrite run_done by (by apply getitem_run).
  do 5 (erewrite run_done by (apply input_run; reflexivity)).
  rewrite Hp. erewrite run_done by reflexivity.
  erewrite run_done by (apply input_run; reflexivity).
  rewrite Hy. erewrite run_done by reflexivity.
  erewrite run_done by (apply input_run; reflexivity).
  cbv zeta.
  erewrite run_done by reflexivity.
  erewrite run_done by reflexivity.
  erewrite run_done by reflexivity.
  split; [reflexivity|].
  cbn [w_games w_machines w_next w_catalog w_stdin w_stdout emit set_stdin set_next
       set_machines set_games set_catalog].
  match goal with
  | |- context [fold_left _ ?ls ?w0] =>
      destruct (emit_lines_fields ls w0) as (HG & HM & Hn & Hc & _ & _)
  end.
  rewrite HG, HM, Hn, Hc.
  cbn [w_games w_machines w_next w_catalog emit].
  split; [by rewrite decide_True|].
  split; [by intros r Hr; rewrite decide_False|].
  do 4 (split; [reflexivity|]).
  rewrite last_snoc. by rewrite decide_True.
Qed.

(** ** The invariant of a session *)

Lemma create_machine_fields (machine_type mat col : string) (m : Machine float) :
  MachineFactory.create_machine machine_type mat col = Some m →
  material m = mat ∧ color m = col ∧ videogames m = [].
Proof.
  intros E.
  destruct (MachineFactory.predefined_machines !! machine_type) as [t|] eqn:Hty.
  - rewrite (create_machine_found _ _ _ t Hty) in E. injection E as <-.
    by destruct (MachineFactory.material_decorators !! lower mat) as [[]|]; destruct t.
  - unfold MachineFactory.create_machine in E. by rewrite Hty in E.
Qed.

Lemma same_objects_invariant w w' :
  same_objects w w' → session_invariant w → session_invariant w'.
Proof.
  unfold session_invariant. intros (HG & HM & Hn & Hc). by rewrite HM, Hn, Hc.
Qed.

Lemma registers_new_machine_invariant w w' :
  registers_new_machine w w' → session_invariant w → session_invariant w'.
Proof.
  intros [Hsame|(ty & mat & col & m & Hty & Hmat & Hm & HG & HM & Hn & Hc)];
    [by apply same_objects_invariant|].
  destruct (create_machine_fields _ _ _ _ Hm) as (Em & _ & Ev).
  intros (Hdup & Hmach & Hgame & Hshare). unfold session_invariant.
  rewrite HM, Hn, Hc. simpl.
  assert (w_next w ∉ machines (w_catalog w)) as Hfresh.
  { intros Hin. apply Hmach in Hin as [Hlt _]. lia. }
  assert (∀ r, r ∈ machines (w_catalog w) →
               store_set (w_machines w) (w_next w) m r = w_machines w r) as Hold.
  { intros r Hr. unfold store_set. rewrite decide_False; [done|]. by intros ->. }
  assert (store_set (w_machines w) (w_next w) m (w_next w) = m) as Hnew.
  { unfold store_set. by rewrite decide_True. }
  split; [|split; [|split]].
  - apply NoDup_app. split; [done|]. split; [|apply NoDup_singleton].
    intros r Hr ->%list_elem_of_singleton. done.
  - intros r [Hr| ->%list_elem_of_singleton]%elem_of_app.
    + rewrite Hold by done. destruct (Hmach r Hr) as (? & ? & ?).
      split; [lia|done].
    + rewrite Hnew, Em, Ev. split; [lia|]. split; [done|apply NoDup_nil_2].
  - intros r g [Hr| ->%list_elem_of_singleton]%elem_of_app.
    + rewrite Hold by done. intros Hg. destruct (Hgame r g Hr Hg) as [Hlt Hnin].
      split; [lia|]. rewrite elem_of_app, list_elem_of_singleton. intros [|]; [done|lia].
    + rewrite Hnew, Ev. by intros ?%elem_of_nil.
  - intros r r' g [Hr| ->%list_elem_of_singleton]%elem_of_app
      [Hr'| ->%list_elem_of_singleton]%elem_of_app;
      rewrite ?Hold, ?Hnew, ?Ev by done; try (by intros ?%elem_of_nil);
      try (by intros _ ?%elem_of_nil); eauto.
Qed.

Lemma attaches_new_game_invariant w w' :
  attaches_new_game w w' → session_invariant w → session_invariant w'.
Proof.
  intros [Hsame|(machine & v & Hin & HG & HM & Hn & Hc)];
    [by apply same_objects_invariant|].
  intros (Hdup & Hmach & Hgame & Hshare). unfold session_invariant.
  rewrite HM, Hn, Hc. clear HM.
  assert (∀ r, r ≠ machine →
            add_videogame_at (w_games w') (w_machines w) machine (w_next w) r =
            w_machines w r) as Hold.
  { intros r Hr. unfold add_videogame_at, store_set. by rewrite decide_False. }
  assert (videogames (add_videogame_at (w_games w') (w_machines w) machine (w_next w)
                        machine) = videogames (w_machines w machine) ++ [w_next w] ∧
          material (add_videogame_at (w_games w') (w_machines w) machine (w_next w)
                        machine) = material (w_machines w machine)) as [Hnewv Hnewm].
  { unfold add_videogame_at, store_set. by rewrite decide_True. }
  assert (w_next w ∉ machines (w_catalog w)) as Hfresh.
  { intros Hr. apply Hmach in Hr as [Hlt _]. lia. }
  assert (∀ r, r ∈ machines (w_catalog w) → w_next w ∉ videogames (w_machines w r))
    as Hunused.
  { intros r Hr Hg. destruct (Hgame r _ Hr Hg). lia. }
  split; [done|]. split; [|split].
  - intros r Hr. destruct (Hmach r Hr) as (Hlt & Hmat & Hnd).
    split; [lia|]. destruct (decide (r = machine)) as [->|Hne].
    + rewrite Hnewv, Hnewm. split; [done|].
      apply NoDup_app. split; [done|]. split; [|apply NoDup_singleton].
      intros g Hg ->%list_elem_of_singleton. by apply (Hunused machine).
    + by rewrite Hold.
  - intros r g Hr. destruct (decide (r = machine)) as [->|Hne].
    + rewrite Hnewv. intros [Hg| ->%list_elem_of_singleton]%elem_of_app.
      * destruct (Hgame machine g Hr Hg). split; [lia|done].
      * split; [lia|done].
    + rewrite Hold by done. intros Hg. destruct (Hgame r g Hr Hg). split; [lia|done].
  - intros r r' g Hr Hr'.
    destruct (decide (r = machine)) as [->|Hne], (decide (r' = machine)) as [->|Hne'];
      rewrite ?Hnewv, ?Hold by done; try done.
    + intros [Hg| ->%list_elem_of_singleton]%elem_of_app Hg'; [by eauto|].
      by destruct (Hunused r' Hr').
    + intros Hg [Hg'| ->%list_elem_of_singleton]%elem_of_app; [by eauto|].
      by destruct (Hunused r Hr).
    + eauto.
Qed.

(** ** Rounds of the menu *)

#[export] Instance keeps_invariant_preorder : PreOrder keeps_invariant.
Proof. split; unfold keeps_invariant; [by intros w|by intros w1 w2 w3; auto]. Qed.

#[export] Instance consumes_input_preorder : PreOrder consumes_input.
Proof.
  split.
  - intros w. by exists [].
  - unfold consumes_input. intros w1 w2 w3 [r1 H1] [r2 H2].
    exists (r1 ++ r2). by rewrite H1, H2, app_assoc.
Qed.

(** A command that does not read leaves the input where it was. *)
Lemma not_reading {A} (c : cli A) :
  (∀ w, w_stdin (c w).2 = w_stdin w ∧ (c w).1 ≠ OutOfFuel) →
  behaves consumes_input any_exception c.
Proof.
  intros Hc w. destruct (Hc w) as [Hin Hres]. split.
  - exists []. by rewrite Hin.
  - by destruct (c w).1.
Qed.

Lemma input_consumes prompt : behaves consumes_input any_exception (input prompt).
Proof.
  intros w. unfold input. simpl. destruct (w_stdin w) as [|line rest] eqn:E; simpl.
  - split; [by exists []|done].
  - split; [by exists [line]|done].
Qed.

Lemma print_each_consumes lines : behaves consumes_input any_exception (print_each lines).
Proof.
  apply not_reading. intros w. rewrite print_each_run. simpl.
  by destruct (emit_lines_fields lines w) as (_ & _ & _ & _ & -> & _).
Qed.

Lemma getitem_consumes {A} (l : list A) i : behaves consumes_input any_exception (getitem l i).
Proof.
  apply not_reading. intros w. unfold getitem.
  by destruct (if (_ <? 0)%Z then None else _).
Qed.

Ltac consumes_leaf :=
  first [ apply input_consumes | apply print_each_consumes | apply getitem_consumes
        | apply not_reading; intros ?; by split ].

Ltac consumes_walk :=
  repeat first
    [ lazymatch goal with
      | |- behaves _ _ (_ ≫= _) => apply behaves_bind; [|intros ?]
      end
    | apply behaves_ret
    | apply behaves_raise; done
    | consumes_leaf
    | progress cbv zeta
    | match goal with
      | |- behaves _ _ (if ?b then _ else _) => destruct b
      | |- behaves _ _ (match ?x with _ => _ end) => destruct x
      end ].

Section Rounds.
Variable int_of : string → option Z.
Variable float_of : string → option float.
Variable format_2f : float → string.
Variable str_lower : string → string.

Lemma create_machine_consumes :
  behaves consumes_input any_exception (CLI.create_machine int_of).
Proof. unfold CLI.create_machine, CLI.parse_int, new_machine. consumes_walk. Qed.

Lemma add_videogame_consumes :
  behaves consumes_input any_exception (CLI.add_videogame int_of float_of).
Proof.
  unfold CLI.add_videogame, CLI.parse_int, CLI.parse_float, new_game. consumes_walk.
Qed.

Lemma search_machines_consumes :
  behaves consumes_input any_exception (CLI.search_machines int_of float_of format_2f str_lower).
Proof.
  unfold CLI.search_machines, CLI.show_results, CLI.parse_int, CLI.parse_float.
  consumes_walk.
Qed.

Lemma list_all_machines_consumes :
  behaves consumes_input any_exception (CLI.list_all_machines format_2f).
Proof. unfold CLI.list_all_machines. consumes_walk. Qed.
End Rounds.

Section Session.
Variable int_of : string → option Z.
Variable float_of : string → option float.
Variable format_2f : float → string.
Variable str_lower : string → string.

Abbreviation round := (CLI.round int_of float_of format_2f str_lower).
Abbreviation loop := (CLI.loop int_of float_of format_2f str_lower).
Abbreviation main := (CLI.main int_of float_of format_2f str_lower).

Lemma same_objects_keeps w w' : same_objects w w' → keeps_invariant w w'.
Proof. exact (same_objects_invariant w w'). Qed.

Lemma input_error_round_exit e : input_error e → round_exit e.
Proof. by left. Qed.

Lemma round_keeps_invariant : behaves keeps_invariant round_exit round.
Proof.
  unfold CLI.round.
  repeat lazymatch goal with
    | |- behaves _ _ (_ ≫= _) => apply behaves_bind; [|intros ?]
    | |- behaves _ _ (if ?b then _ else _) => destruct b
    | |- behaves _ _ (raise _) => apply behaves_raise; by right
    | |- behaves _ _ (CLI.create_machine _) =>
        eapply behaves_weaken;
          [exact registers_new_machine_invariant|exact input_error_round_exit|
           apply create_machine_registers]
    | |- behaves _ _ (CLI.add_videogame _ _) =>
        eapply behaves_weaken;
          [exact attaches_new_game_invariant|exact input_error_round_exit|
           apply add_videogame_attaches]
    | |- behaves _ _ ?c =>
        eapply behaves_weaken;
          [exact same_objects_keeps|exact input_error_round_exit|];
        lazymatch c with
        | CLI.print_menu => apply print_menu_behaves
        | input _ => apply input_behaves
        | print _ => apply print_behaves
        | CLI.search_machines _ _ _ _ => apply search_machines_behaves
        | CLI.list_all_machines _ => apply list_all_machines_behaves
        end
    end.
Qed.

Lemma round_consumes : behaves consumes_input any_exception round.
Proof.
  unfold CLI.round.
  repeat lazymatch goal with
    | |- behaves _ _ (_ ≫= _) => apply behaves_bind; [|intros ?]
    | |- behaves _ _ (if ?b then _ else _) => destruct b
    | |- behaves _ _ (raise _) => by apply behaves_raise
    | |- behaves _ _ (CLI.create_machine _) => apply create_machine_consumes
    | |- behaves _ _ (CLI.add_videogame _ _) => apply add_videogame_consumes
    | |- behaves _ _ (CLI.search_machines _ _ _ _) => apply search_machines_consumes
    | |- behaves _ _ (CLI.list_all_machines _) => apply list_all_machines_consumes
    | |- behaves _ _ (input _) => apply input_consumes
    | |- behaves _ _ _ => apply not_reading; intros ?; by split
    end.
Qed.

(** A round reads the menu choice first; what it does next depends on it. *)
Lemma round_run w :
  ∃ w1, w_stdin w1 = w_stdin w ∧
    round w =
      match w_stdin w with
      | [] => (Raised EOFError, emit (Prompted "Enter your choice (1-5): ") w1)
      | choice :: rest =>
          let w2 := set_stdin (emit (Prompted "Enter your choice (1-5): ") w1) rest in
          if bool_decide (choice = "1"%string) then CLI.create_machine int_of w2
          else if bool_decide (choice = "2"%string) then
                 CLI.add_videogame int_of float_of w2
          else if bool_decide (choice = "3"%string) then
                 CLI.search_machines int_of float_of format_2f str_lower w2
          else if bool_decide (choice = "4"%string) then
                 CLI.list_all_machines format_2f w2
          else if bool_decide (choice = "5"%string) then
                 (Raised (SystemExit 0),
                  emit (Printed "Thank you for using the Arcade Machine Catalog. Goodbye!")
                    w2)
          else print "Invalid choice. Please try again." w2
      end.
Proof.
  eexists. split; cycle 1.
  - unfold CLI.round. erewrite run_done by reflexivity.
    unfold mbind at 1, cli_bind at 1, input at 1.
    cbn [w_stdin emit]. destruct (w_stdin w) as [|choice rest]; [reflexivity|].
    cbv zeta.
    repeat (destruct (bool_decide _); [reflexivity|]). reflexivity.
  - reflexivity.
Qed.

Lemma round_done w w' :
  round w = (Done tt, w') → length (w_stdin w') < length (w_stdin w).
Proof.
  destruct (round_run w) as (w1 & Hin & ->).
  destruct (w_stdin w) as [|choice rest]; [done|]. cbv zeta.
  set (w2 := set_stdin _ rest).
  assert (∀ c : cli unit, behaves consumes_input any_exception c →
            c w2 = (Done tt, w') → length (w_stdin w') < S (length rest)) as Hc.
  { intros c Hc E. destruct (Hc w2) as [[read Hread] _]. rewrite E in Hread.
    simpl in Hread. rewrite Hread, length_app. lia. }
  repeat case_bool_decide.
  - apply Hc, create_machine_consumes.
  - apply Hc, add_videogame_consumes.
  - apply Hc, search_machines_consumes.
  - apply Hc, list_all_machines_consumes.
  - done.
  - apply Hc. consumes_leaf.
Qed.

Lemma round_exits w code w' :
  round w = (Raised (SystemExit code), w') →
  code = 0%Z ∧ ∃ rest, w_stdin w = "5"%string :: rest.
Proof.
  destruct (round_run w) as (w1 & Hin & ->).
  destruct (w_stdin w) as [|choice rest]; [done|]. cbv zeta.
  set (w2 := set_stdin _ rest).
  assert (∀ c : cli unit, behaves same_objects input_error c ∨
                          behaves registers_new_machine input_error c ∨
                          behaves attaches_new_game input_error c →
            c w2 ≠ (Raised (SystemExit code), w')) as Hc.
  { intros c Hc E.
    assert (input_error (SystemExit code)) as [|]; [|done..].
    destruct Hc as [Hc|[Hc|Hc]]; destruct (Hc w2) as [_ HE]; by rewrite E in HE. }
  repeat case_bool_decide.
  - intros E. edestruct Hc; [|exact E]. right; left. apply create_machine_registers.
  - intros E. edestruct Hc; [|exact E]. right; right. apply add_videogame_attaches.
  - intros E. edestruct Hc; [|exact E]. left. apply search_machines_behaves.
  - intros E. edestruct Hc; [|exact E]. left. apply list_all_machines_behaves.
  - intros [= <- _]. split; [done|]. subst choice. by exists rest.
  - done.
Qed.

Lemma loop_keeps_invariant fuel w :
  session_invariant w → session_invariant (loop fuel w).2.
Proof.
  revert w. induction fuel as [|fuel IH]; intros w Hw; [done|].
  simpl. unfold mbind, cli_bind.
  destruct (round_keeps_invariant w) as [HI _].
  destruct (round w) as [[[]| |] w1]; simpl in *; auto.
Qed.

Lemma loop_ends fuel w :
  length (w_stdin w) < fuel →
  ∃ e w', loop fuel w = (Raised e, w') ∧ round_exit e ∧
    (e = SystemExit 0 → "5"%string ∈ w_stdin w).
Proof.
  revert w. induction fuel as [|fuel IH]; intros w Hfuel; [lia|].
  simpl. unfold mbind, cli_bind.
  destruct (round_keeps_invariant w) as [_ HE].
  destruct (round_consumes w) as [[read Hread] _].
  destruct (round w) as [[[]|e|] w1] eqn:Hround; simpl in *; [| |done].
  - apply round_done in Hround.
    destruct (IH w1) as (e & w' & -> & He & Hfive); [lia|].
    exists e, w'. split; [done|]. split; [done|].
    intros Hexit. rewrite Hread. apply elem_of_app. right. auto.
  - exists e, w1. split; [done|]. split; [done|].
    intros ->. apply round_exits in Hround as (_ & rest & ->). apply list_elem_of_here.
Qed.

Lemma loop_never_returns fuel w : (loop fuel w).1 ≠ Done tt.
Proof.
  revert w. induction fuel as [|fuel IH]; intros w; [done|].
  simpl. unfold mbind, cli_bind.
  destruct (round w) as [[[]| |] w1]; simpl; [apply IH|done..].
Qed.
End Session.

(** X22: [main] never returns normally.  Given more rounds than there are
    input lines it ends with [SystemExit(0)], [EOFError] or [ValueError], and
    with [SystemExit(0)] only if some line of the input is "5". *)
Theorem cli_main_ends (int_of : string → option Z) (float_of : string → option float)
    (format_2f : float → string) (str_lower : string → string)
    (fuel : nat) (w : World) :
  (CLI.main int_of float_of format_2f str_lower fuel w).1 ≠ Done tt ∧
  (length (w_stdin w) < fuel →
   ∃ e w', CLI.main int_of float_of format_2f str_lower fuel w = (Raised e, w') ∧
     round_exit e ∧ (e = SystemExit 0 → "5"%string ∈ w_stdin w)).
Proof.
  unfold CLI.main. split.
  - apply (loop_never_returns int_of float_of format_2f str_lower fuel (set_catalog w _)).
  - intros Hfuel.
    apply (loop_ends int_of float_of format_2f str_lower fuel (set_catalog w CatalogManager_init)).
    done.
Qed.

(** X23: at any point where a session stops, no machine is registered
    twice, every registered machine is made of wood, aluminium or carbon
    fiber, no game is attached twice or to two machines, and no reference
    serves as both a game and a machine. *)
Theorem cli_session_invariant (int_of : string → option Z)
    (float_of : string → option float) (format_2f : float → string)
    (str_lower : string → string) (fuel : nat) (w : World) :
  session_invariant (CLI.main int_of float_of format_2f str_lower fuel w).2.
Proof.
  unfold CLI.main.
  apply (loop_keeps_invariant int_of float_of format_2f str_lower fuel
           (set_catalog w CatalogManager_init)).
  unfold session_invariant. simpl.
  split; [apply NoDup_nil_2|]. split; [|split].
  - by intros r ?%elem_of_nil.
  - by intros r g ?%elem_of_nil.
  - by intros r r' g ?%elem_of_nil.
Qed.

(** ** A machine from the factory in the catalog *)

Lemma float_leb_refl (x : float) : PrimFloat.is_nan x = false → PrimFloat.leb x x = true.
Proof.
  intros Hnan. rewrite leb_spec. unfold SFleb.
  destruct (Prim2SF x) eqn:E; try (by rewrite SFcompare_refl).
  apply is_nan_Prim2SF in E. congruence.
Qed.

(** X15: a machine as the factory returned it, once registered, is found by
    game count 0, by every query that [str.lower] maps to the same text as
    the material it was created with, and by the degenerate range at its own
    price, weight and power consumption; no search by game name finds it.
    This holds whatever [str.lower] does to the characters. *)
Theorem fresh_machine_findable (str_lower : string → string)
    (machine_type mat col : string)
    (M : machine_store float) (self : CatalogManager) (r : ref) :
  MachineFactory.create_machine machine_type mat col = Some (M r) →
  r ∈ machines self →
  r ∈ search_by_videogame_count M self 0 ∧
  (∀ wanted, str_lower wanted = str_lower mat →
     r ∈ search_by_material str_lower M self wanted) ∧
  (∀ (G : games float) wanted, r ∉ search_by_videogame_name str_lower G M self wanted) ∧
  r ∈ search_by_price_range M self (base_price (M r)) (base_price (M r)) ∧
  r ∈ search_by_weight_range M self (weight (M r)) (weight (M r)) ∧
  r ∈ search_by_power_consumption_range M self (power_consumption (M r))
        (power_consumption (M r)).
Proof.
  intros Hm Hr.
  destruct (create_machine_fields _ _ _ _ Hm) as (Emat & _ & Ev).
  assert (PrimFloat.is_nan (base_price (M r)) = false ∧
          PrimFloat.is_nan (weight (M r)) = false ∧
          PrimFloat.is_nan (power_consumption (M r)) = false) as (Hp & Hw & Hc).
  { destruct (MachineFactory.predefined_machines !! machine_type) as [t|] eqn:Hty.
    - rewrite (create_machine_found _ _ _ t Hty) in Hm. injection Hm as <-.
      by destruct (MachineFactory.material_decorators !! lower mat) as [[]|]; destruct t.
    - unfold MachineFactory.create_machine in Hm. by rewrite Hty in Hm. }
  split; [|split; [|split; [|split; [|split]]]].
  - apply list_elem_of_filter. by rewrite Ev.
  - intros wanted Hwanted. apply list_elem_of_filter. by rewrite Emat.
  - intros G wanted [Hany _]%list_elem_of_filter. by rewrite Ev in Hany.
  - apply list_elem_of_filter. split; [|done]. apply between_true.
    by split; apply float_leb_refl.
  - apply list_elem_of_filter. split; [|done]. apply between_true.
    by split; apply float_leb_refl.
  - apply list_elem_of_filter. split; [|done]. apply between_true.
    by split; apply float_leb_refl.
Qed.

Lemma fresh_machine_findable_witness :
  1 ∈ search_by_videogame_count sample_store sample_catalog 0 ∧
  1 ∈ search_by_material lower sample_store sample_catalog "ALUMINIUM".
Proof.
  destruct (fresh_machine_findable lower "Racing" "Aluminium" "Red" sample_store
              sample_catalog 1) as (Hcount & Hmat & _); [reflexivity| |].
  - apply list_elem_of_further, list_elem_of_here.
  - split; [done|]. by apply Hmat.
Defined.

(** ** A sample session *)

Example demo_session_runs :
  ∃ w', CLI.main demo_int demo_float demo_format lower 10 (boot demo_session) =
          (Raised (SystemExit 0), w') ∧
    machines (w_catalog w') = [0] ∧
    videogames (w_machines w' 0) = [1] ∧
    material (w_machines w' 0) = "aluminium"%string ∧
    price (w_games w' 1) = (59.99 * 1.1)%float ∧
    calculate_total_price (w_machines w' 0) = (6000 * 1.1 + 59.99 * 1.1)%float ∧
    w_stdin w' = ["never read"]%string ∧
    last (w_stdout w') =
      Some (Printed "Thank you for using the Arcade Machine Catalog. Goodbye!").
Proof. eexists. split; [vm_compute; reflexivity|]. vm_compute. by repeat split. Qed.

(** ** Choices out of range *)

Lemma out_of_range_true {A} (l : list A) (n : Z) :
  (n < 1 ∨ Z.of_nat (length l) < n)%Z → CLI.out_of_range (n - 1) l = true.
Proof.
  intros Hn. unfold CLI.out_of_range. apply orb_true_iff.
  destruct Hn; [left; apply Z.ltb_lt; lia|right; rewrite Z.geb_leb; apply Z.leb_le; lia].
Qed.

(** X20: a number below 1 or above the number of listed entries is answered
    with "Invalid choice." and changes nothing: 0 and negative numbers do not
    select from the end of the list. *)
Theorem cli_rejects_out_of_range (int_of : string → option Z)
    (float_of : string → option float) (w : World) (t : string) (rest : list string)
    (n : Z) :
  w_stdin w = t :: rest → int_of t = Some n →
  ((n < 1 ∨ 5 < n)%Z →
     ∃ w', CLI.create_machine int_of w = (Done tt, w') ∧ same_objects w w' ∧
       w_stdin w' = rest ∧ last (w_stdout w') = Some (Printed "Invalid choice.")) ∧
  (machines (w_catalog w) ≠ [] →
   (n < 1 ∨ Z.of_nat (length (machines (w_catalog w))) < n)%Z →
     ∃ w', CLI.add_videogame int_of float_of w = (Done tt, w') ∧ same_objects w w' ∧
       w_stdin w' = rest ∧ last (w_stdout w') = Some (Printed "Invalid choice.")).
Proof.
  intros Hin Ht. split.
  - intros Hn. unfold CLI.create_machine, CLI.parse_int.
    generalize (numbered CLI.machine_types). intros lines.
    eexists.
    erewrite run_done by reflexivity.
    erewrite run_done by apply print_each_run.
    erewrite run_done by (apply input_run_emit; exact Hin).
    rewrite Ht. erewrite run_done by reflexivity. cbv zeta.
    rewrite out_of_range_true by done.
    split; [reflexivity|].
    match goal with
    | |- context [fold_left _ lines ?w0] =>
        destruct (emit_lines_fields lines w0) as (HG & HM & Hn' & Hc & _ & _)
    end.
    unfold same_objects.
    cbn [w_games w_machines w_next w_catalog w_stdin w_stdout emit set_stdin print snd].
    rewrite HG, HM, Hn', Hc. cbn [w_games w_machines w_next w_catalog emit].
    split; [done|]. split; [done|]. apply last_snoc.
  - intros Hcat Hn. unfold CLI.add_videogame, CLI.parse_int.
    generalize (CLI.machine_line (w_machines w)). intros line_of.
    eexists.
    erewrite run_done by reflexivity.
    rewrite bool_decide_eq_false_2 by done.
    erewrite run_done by reflexivity.
    erewrite run_done by reflexivity.
    cbn [w_machines emit].
    erewrite run_done by apply print_each_run.
    erewrite run_done by (apply input_run_emit; exact Hin).
    rewrite Ht. erewrite run_done by reflexivity. cbv zeta.
    rewrite out_of_range_true by done.
    split; [reflexivity|].
    match goal with
    | |- context [fold_left _ ?ls ?w0] =>
        destruct (emit_lines_fields ls w0) as (HG & HM & Hn' & Hc & _ & _)
    end.
    unfold same_objects.
    cbn [w_games w_machines w_next w_catalog w_stdin w_stdout emit set_stdin print snd].
    rewrite HG, HM, Hn', Hc. cbn [w_games w_machines w_next w_catalog emit].
    split; [done|]. split; [done|]. apply last_snoc.
Qed.

Lemma cli_rejects_out_of_range_witness :
  ∃ w', CLI.create_machine demo_int (boot ["0"; "again"]%string) = (Done tt, w') ∧
    same_objects (boot ["0"; "again"]%string) w' ∧ w_stdin w' = ["again"]%string.
Proof.
  destruct (cli_rejects_out_of_range demo_int demo_float (boot ["0"; "again"]%string)
              "0" ["again"]%string 0) as [Hcreate _]; [done..|].
  destruct Hcreate as (w' & E & Hsame & Hrest & _); [lia|].
  by exists w'.
Defined.

(** ** The statements above on sample input *)

Lemma cli_create_machine_selects_witness :
  ∃ m w', MachineFactory.create_machine "Racing" "aluminium" "Red" = Some m ∧
    CLI.create_machine demo_int (boot ["4"; "2"; "Red"; "5"]%string) = (Done tt, w') ∧
    w_machines w' 0 = m ∧ machines (w_catalog w') = [0] ∧ w_stdin w' = ["5"]%string.
Proof.
  destruct (cli_create_machine_selects demo_int (boot ["4"; "2"; "Red"; "5"]%string)
              "4" "2" "Red" ["5"]%string 3 1 "Racing" "aluminium")
    as (m & w' & Hm & E & _ & HM & _ & Hc & Hrest & _); [done..|].
  exists m, w'. split; [done|]. split; [done|].
  rewrite HM, Hc. by repeat split.
Defined.

Lemma cli_add_videogame_selects_witness :
  ∃ w', CLI.add_videogame demo_int demo_float demo_world = (Done tt, w') ∧
    price (w_games w' 7) = (59.99 * 1.1)%float ∧
    videogames (w_machines w' 1) = [7] ∧ w_stdin w' = ["5"]%string.
Proof.
  destruct (cli_add_videogame_selects demo_int demo_float demo_world
              "2" "Pole Position" "Namco" "Namco" "Racing" "59.99" "1982" "Y"
              ["5"]%string 1 1 59.99%float 1982)
    as (w' & E & HG & _ & HM & _ & _ & Hrest & _); [done..|].
  exists w'. split; [done|].
  change 7 with (w_next demo_world) at 1. rewrite HG, HM. by repeat split.
Defined.

Lemma cli_main_ends_witness :
  ∃ e w', CLI.main demo_int demo_float demo_format lower 17 (boot demo_session) =
            (Raised e, w') ∧
    round_exit e.
Proof.
  destruct (cli_main_ends demo_int demo_float demo_format lower 17 (boot demo_session))
    as [_ Hends].
  destruct Hends as (e & w' & E & He & _); [simpl; lia|].
  by exists e, w'.
Defined.

Lemma material_ranking_witness :
  ∃ mw mo, MachineFactory.create_machine "Racing" "Wood" "Red" = Some mw ∧
    MachineFactory.create_machine "Racing" "steel" "Red" = Some mo ∧
    (base_price mw <? base_price mo)%float = true ∧
    (weight mo <? weight mw)%float = true.
Proof.
  destruct (material_ranking "Racing" "Wood" "ALUMINIUM" "Carbon Fiber" "steel" "Red")
    as (mw & ma & mc & mo & Hw & _ & _ & Ho & Hp & _ & _ & _ & _ & Hwt & _);
    [apply list_elem_of_further, list_elem_of_further, list_elem_of_further,
       list_elem_of_here|done..|literal_not_elem_of|].
  by exists mw, mo.
Defined.
